(** * Workflow Dispatch Action: dispatch a workflow, then locate its run

    A shallow embedding of the run-identification protocol of
    [src/dispatch.ts], which the main task calls, of its second copy in
    [src/api.ts], of the workflow lookup of [unnamed/part_000] and of the
    main task's [run] function, followed by the properties the
    specification states about them (C1 to C10) and by further properties of
    the code (X1 to X19).

    - JavaScript numbers that hold ids, statuses and millisecond counts are
      [Z]; strings are [string].
    - A thrown [Error] is its [message].
    - Asynchronous code is sequential state passing over a [World] holding
      the clock read by [Date.now()], the number of remote calls answered so
      far and a time-stamped trace of calls and of [core.*] effects.  Only
      remote calls and sleeps take time.
    - The remote platform is a [Platform]: what the [n]-th remote call is
      answered with and how long it takes.
    - [while] loops take fuel; [NoResult] is what the model returns when the
      fuel is gone, and where a pattern lies outside the modelled fragment
      of [RegExp].  Every theorem that says a function returns shows that
      enough fuel gives the result.
    - [core.debug] and [core.info] only print; they are left out of the
      trace. *)

From Stdlib Require Import ZArith List String Ascii Bool Lia DecimalString
  DecimalPos.
Import ListNotations.
Open Scope string_scope.
Open Scope Z_scope.

(** ** Strings *)

Module Str.

Fixpoint chars (s : string) : list ascii :=
  match s with
  | EmptyString => []
  | String c s' => c :: chars s'
  end.

Fixpoint drop (n : nat) (s : string) : string :=
  match n, s with
  | O, _ => s
  | S n', String _ s' => drop n' s'
  | S _, EmptyString => EmptyString
  end.

(** [s.startsWith(p)] *)
Definition startsWith (s p : string) : bool := String.prefix p s.

(** [s.endsWith(p)] *)
Definition endsWith (s p : string) : bool :=
  (String.length p <=? String.length s)%nat
  && String.eqb (drop (String.length s - String.length p) s) p.

(** [s.includes(p)] *)
Fixpoint includes (s p : string) : bool :=
  String.prefix p s
  || match s with
     | EmptyString => false
     | String _ s' => includes s' p
     end.

(** How a number prints in a template string, [n.toString()]. *)
Definition ofZ (n : Z) : string := NilZero.string_of_int (Z.to_int n).

End Str.

(** ** JavaScript built-ins the action relies on *)

Module JS.

Record Error := mkError { message : string }.

(** *** [parseInt(value)], without a radix argument

    Leading white space is skipped, a sign is read, a [0x]/[0X] prefix
    selects radix 16, and the longest prefix of digits is the value; no digit
    at all is [NaN], here [None].  The value is exact (no rounding to a
    double). *)

Definition isWhiteSpace (c : ascii) : bool :=
  let n := nat_of_ascii c in
  ((9 <=? n) && (n <=? 13) || (n =? 32))%nat.

Fixpoint skipWhiteSpace (s : string) : string :=
  match s with
  | String c s' => if isWhiteSpace c then skipWhiteSpace s' else s
  | EmptyString => s
  end.

Definition digitValue (c : ascii) : option Z :=
  let n := nat_of_ascii c in
  if ((48 <=? n) && (n <=? 57))%nat then Some (Z.of_nat (n - 48))
  else if ((97 <=? n) && (n <=? 122))%nat then Some (Z.of_nat (n - 87))
  else if ((65 <=? n) && (n <=? 90))%nat then Some (Z.of_nat (n - 55))
  else None.

(** Reads digits of radix [radix] from the front of [s]; [acc] is the value
    read so far, [None] while no digit was read. *)
Fixpoint readDigits (radix : Z) (acc : option Z) (s : string) : option Z :=
  match s with
  | EmptyString => acc
  | String c s' =>
      match digitValue c with
      | Some d =>
          if d <? radix
          then readDigits radix
                 (Some (match acc with Some a => a * radix + d | None => d end)) s'
          else acc
      | None => acc
      end
  end.

Definition parseInt (value : string) : option Z :=
  let s := skipWhiteSpace value in
  let '(sign, s) :=
    match s with
    | String "-" s' => (-1, s')
    | String "+" s' => (1, s')
    | _ => (1, s)
    end in
  let '(radix, s) :=
    if Str.startsWith s "0x" || Str.startsWith s "0X"
    then (16, Str.drop 2 s) else (10, s) in
  match readDigits radix None s with
  | Some n => Some (sign * n)
  | None => None
  end.

(** *** [new RegExp(pattern)] and [regex.test(s)], without flags

    The modelled fragment of the pattern syntax: a pattern character stands
    for itself, [.] stands for any character that is not a line terminator,
    and a backslash followed by a syntax character stands for that
    character.  [RegExp_new] is [None] on every other pattern: the model
    does not say what the built-in does there. *)

Inductive Atom : Type :=
  | Lit (c : ascii)
  | AnyChar.

Definition RegExp : Type := list Atom.

Definition isSyntaxCharacter (c : ascii) : bool :=
  existsb (Ascii.eqb c)
    ["^"; "$"; "\"; "."; "*"; "+"; "?"; "("; ")"; "["; "]"; "{"; "}"; "|"]%char.

Fixpoint parseAtoms (p : list ascii) : option RegExp :=
  match p with
  | [] => Some []
  | c :: p' =>
      if Ascii.eqb c "."%char then option_map (cons AnyChar) (parseAtoms p')
      else if Ascii.eqb c "\"%char then
        match p' with
        | e :: p'' =>
            if isSyntaxCharacter e then option_map (cons (Lit e)) (parseAtoms p'')
            else None
        | [] => None
        end
      else if isSyntaxCharacter c then None
      else option_map (cons (Lit c)) (parseAtoms p')
  end.

Definition RegExp_new (pattern : string) : option RegExp :=
  parseAtoms (Str.chars pattern).

Definition isLineTerminator (c : ascii) : bool :=
  let n := nat_of_ascii c in ((n =? 10) || (n =? 13))%nat.

Definition atomMatches (a : Atom) (c : ascii) : bool :=
  match a with
  | Lit l => Ascii.eqb l c
  | AnyChar => negb (isLineTerminator c)
  end.

(** The atoms match the characters at the front of [s]. *)
Fixpoint matchHere (re : RegExp) (s : string) : bool :=
  match re, s with
  | [], _ => true
  | a :: re', String c s' => atomMatches a c && matchHere re' s'
  | _ :: _, EmptyString => false
  end.

(** [regex.test(s)]: a match starting at some position of [s]. *)
Fixpoint RegExp_test (re : RegExp) (s : string) : bool :=
  matchHere re s
  || match s with
     | EmptyString => false
     | String _ s' => RegExp_test re s'
     end.

(** *** [new Set(array)] and [Array.from(set)]

    A [Set] keeps its members in insertion order; adding a member it already
    has changes nothing. *)

Definition Set_add (s : list string) (x : string) : list string :=
  if existsb (String.eqb x) s then s else (s ++ [x])%list.

Definition Set_new (array : list string) : list string :=
  fold_left Set_add array [].

Definition Array_from (s : list string) : list string := s.

End JS.

Import JS.

(** ** Data of the platform API *)

Record WorkflowRun := mkWorkflowRun { run_id : Z }.

Record Step := mkStep { step_name : string }.

(** [steps] may be absent from a job of the response ([job.steps?.]). *)
Record Job := mkJob { job_id : Z; job_steps : option (list Step) }.

Record Workflow := mkWorkflow { wf_id : Z; wf_name : string; wf_path : string }.

(** The argument of [octokit.rest.actions.listWorkflowRuns]; [branch] is
    absent from the unscoped query. *)
Record ListRunsParams := mkListRunsParams {
  lr_owner : string;
  lr_repo : string;
  lr_workflow_id : Z;
  lr_branch : option string;
  lr_per_page : Z
}.

(** The argument of [octokit.rest.actions.listJobsForWorkflowRun]. *)
Record ListJobsParams := mkListJobsParams {
  lj_owner : string;
  lj_repo : string;
  lj_run_id : Z;
  lj_filter : string
}.

(** The [config] object that [run] hands to [applyWorkflowRunId]. *)
Record Config := mkConfig {
  token : string;
  ref : string;
  repo : string;
  owner : string;
  commitId : string;
  workflowTimeoutSeconds : string
}.

(** A remote call is answered by a response with a status, or the client
    rejects with an [Error] (as octokit does on a 404, with the message
    "Not Found"). *)
Inductive Reply (A : Type) : Type :=
  | Response (status : Z) (data : A)
  | Rejected (e : Error).
Arguments Response {A} status data.
Arguments Rejected {A} e.

(** ** The world the action runs in *)

(** What the trace records: the remote calls with their arguments, the
    sleeps, the entries into [retryOrDie] with the budget passed, and the
    calls of [core.setOutput], [core.setFailed], [core.error] and
    [core.warning]. *)
Inductive Event : Type :=
  | ListWorkflowRuns (params : ListRunsParams)
  | ListJobsForWorkflowRun (params : ListJobsParams)
  | ListRepoWorkflows (owner repo : string)
  | CreateDispatch (owner repo : string) (workflow_id : Z) (ref : string)
  | GetWorkflowRun (owner repo : string) (run_id : Z)
  | SetTimeout (ms : Z)
  | RetryOrDie (timeoutMs : Z)
  | SetOutput (name : string) (value : Z)
  | SetFailed (msg : string)
  | CoreError (msg : string)
  | CoreWarning (msg : string).

(** [trace] is newest first; each event carries the clock at which it
    happened. *)
Record World := mkWorld {
  now : Z;
  calls : nat;
  trace : list (Z * Event)
}.

(** What the [n]-th remote call of the execution is answered with when it is
    a call of the given operation with the given argument, and how long the
    [n]-th call takes. *)
Record Platform := mkPlatform {
  listWorkflowRuns : nat -> ListRunsParams -> Reply (list WorkflowRun);
  listJobsForWorkflowRun : nat -> ListJobsParams -> Reply (list Job);
  listRepoWorkflows : nat -> string -> string -> Reply (list Workflow);
  createDispatch : nat -> string -> string -> Z -> string -> Reply unit;
  getWorkflowRun : nat -> string -> string -> Z -> Reply string;
  latency : nat -> Z
}.

Inductive Outcome (A : Type) : Type :=
  | Ok (a : A)
  | Throw (e : Error)
  | NoResult.
Arguments Ok {A} a.
Arguments Throw {A} e.
Arguments NoResult {A}.

Definition M (A : Type) : Type := World -> Outcome A * World.

Definition ret {A} (a : A) : M A := fun w => (Ok a, w).

Definition throw {A} (e : Error) : M A := fun w => (Throw e, w).

Definition noResult {A} : M A := fun w => (NoResult, w).

Definition bind {A B} (m : M A) (k : A -> M B) : M B :=
  fun w =>
    match m w with
    | (Ok a, w1) => k a w1
    | (Throw e, w1) => (Throw e, w1)
    | (NoResult, w1) => (NoResult, w1)
    end.

(** [try { m } catch (error) { handler error }] *)
Definition tryCatch {A} (m : M A) (handler : Error -> M A) : M A :=
  fun w =>
    match m w with
    | (Throw e, w1) => handler e w1
    | r => r
    end.

Declare Scope action_scope.
Delimit Scope action_scope with action.
Notation "x <- m ;; k" := (bind m (fun x => k))
  (at level 61, m at next level, right associativity) : action_scope.
Notation "m ;; k" := (bind m (fun _ => k))
  (at level 61, right associativity) : action_scope.
Open Scope action_scope.

Definition record (ev : Event) : M unit :=
  fun w => (Ok tt, mkWorld (now w) (calls w) ((now w, ev) :: trace w)).

(** [Date.now()] *)
Definition Date_now : M Z := fun w => (Ok (now w), w).

(** [await new Promise((resolve) => setTimeout(resolve, ms))] *)
Definition sleep (ms : Z) : M unit :=
  fun w => (Ok tt, mkWorld (now w + ms) (calls w) ((now w, SetTimeout ms) :: trace w)).

Definition core_setOutput (name : string) (value : Z) : M unit :=
  record (SetOutput name value).

Definition core_setFailed (msg : string) : M unit := record (SetFailed msg).

Definition core_error (msg : string) : M unit := record (CoreError msg).

Definition core_warning (msg : string) : M unit := record (CoreWarning msg).

(** A remote call: it is recorded, takes its latency and is answered. *)
Definition request {A} (lat : nat -> Z) (ev : Event) (answer : nat -> Reply A)
  : M (Z * A) :=
  fun w =>
    let n := calls w in
    let w1 := mkWorld (now w + lat n) (S n) ((now w, ev) :: trace w) in
    match answer n with
    | Response status data => (Ok (status, data), w1)
    | Rejected e => (Throw e, w1)
    end.

(** ** [src/dispatch.ts] *)

Definition WORKFLOW_FETCH_TIMEOUT_MS : Z := 60 * 1000.
Definition WORKFLOW_JOB_STEPS_RETRY_MS : Z := 5000.
Definition WORKFLOW_TIMEOUT_SECONDS : Z := 5 * 60.

(** Modelled from the spec: [getBranchName] of [./utils], which is not among
    the sources.  "A ref of the form [refs/heads/<branch>] yields
    [<branch>]; tag refs and other ref shapes yield no branch." *)
Definition getBranchName (ref : string) : option string :=
  if Str.startsWith ref "refs/heads/"
  then Some (Str.drop (String.length "refs/heads/") ref)
  else None.

(** Truthiness of a [string | undefined] value. *)
Definition truthy (v : option string) : bool :=
  match v with
  | Some s => negb (String.eqb s "")
  | None => false
  end.

(** [None] is [undefined]; the error is the one the [catch] of the function
    throws when [parseInt] gives [NaN]. *)
Definition getNumberFromValue (value : string) : Outcome (option Z) :=
  if String.eqb value "" then Ok None
  else
    match parseInt value with
    | Some num => Ok (Some num)
    | None => Throw (mkError ("Unable to parse value: " ++ value))
    end.

(** [x || WORKFLOW_TIMEOUT_SECONDS] for [x : number | undefined]. *)
Definition orDefault (x : option Z) (d : Z) : Z :=
  match x with
  | Some n => if n =? 0 then d else n
  | None => d
  end.

(** A computation that touches neither the clock nor the platform. *)
Definition lift {A} (o : Outcome A) : M A := fun w => (o, w).

(** The [params] object of [getWorkflowRunIds]. *)
Definition listRunsParams (workflowId : Z) (config : Config) : ListRunsParams :=
  let branchName := getBranchName (ref config) in
  if truthy branchName
  then mkListRunsParams (owner config) (repo config) workflowId branchName 5
  else mkListRunsParams (owner config) (repo config) workflowId None 10.

(** [job.steps?.map((step) => step.name) || []] *)
Definition stepNames (job : Job) : list string :=
  match job_steps job with
  | Some steps => map step_name steps
  | None => []
  end.

(** The step names of all jobs, pushed job after job onto [allSteps]. *)
Definition pushAll (allSteps : list string) (job : Job) : list string :=
  fold_left (fun acc step => (acc ++ [step])%list) (stepNames job) allSteps.

Definition allStepsOf (jobs : list Job) : list string :=
  fold_left pushAll jobs [].

Definition TimedOutFetching : Error :=
  mkError "Timed out while attempting to fetch data".

Definition TimeoutExceeded : Error :=
  mkError "Timeout exceeded while attempting to get Run ID".

Section Dispatch.

Variable gh : Platform.

Definition getWorkflowRunIds (workflowId : Z) (config : Config) : M (list Z) :=
  tryCatch
    (let params := listRunsParams workflowId config in
     response <- request (latency gh) (ListWorkflowRuns params)
                   (fun n => listWorkflowRuns gh n params) ;;
     let '(status, workflow_runs) := response in
     if negb (status =? 200) then
       throw (mkError ("Failed to get Workflow runs, expected 200 but received "
                       ++ Str.ofZ status))
     else ret (map run_id workflow_runs))
    (fun error =>
       core_error ("getWorkflowRunIds: An unexpected error has occurred: "
                   ++ message error) ;;
       throw error).

Definition getWorkflowRunJobSteps (runId : Z) (config : Config) : M (list string) :=
  tryCatch
    (let params := mkListJobsParams (owner config) (repo config) runId "latest" in
     response <- request (latency gh) (ListJobsForWorkflowRun params)
                   (fun n => listJobsForWorkflowRun gh n params) ;;
     let '(status, jobs) := response in
     if negb (status =? 200) then
       throw (mkError ("Failed to get Workflow Run Jobs, expected 200 but received "
                       ++ Str.ofZ status))
     else
       let allSteps := allStepsOf jobs in
       let steps := Array_from (Set_new allSteps) in
       ret steps)
    (fun error =>
       core_error ("getWorkflowRunJobs: An unexpected error has occurred: "
                   ++ message error) ;;
       throw error).

(** The [while] loop of [retryOrDie]; [elapsedTime] is the variable of that
    name, which the loop condition reads before the body refreshes it. *)
Fixpoint retryLoop {T} (fuel : nat) (retryFunc : M (list T))
    (timeoutMs startTime elapsedTime : Z) : M (list T) :=
  match fuel with
  | O => noResult
  | S fuel' =>
      if elapsedTime <? timeoutMs then
        t <- Date_now ;;
        let elapsedTime := t - startTime in
        response <- retryFunc ;;
        if (0 <? List.length response)%nat then ret response
        else
          sleep 1000 ;;
          retryLoop fuel' retryFunc timeoutMs startTime elapsedTime
      else throw TimedOutFetching
  end.

Definition retryOrDie {T} (fuel : nat) (retryFunc : M (list T)) (timeoutMs : Z)
  : M (list T) :=
  record (RetryOrDie timeoutMs) ;;
  startTime <- Date_now ;;
  let elapsedTime := 0 in
  retryLoop fuel retryFunc timeoutMs startTime elapsedTime.

(** [for (const step of steps)]: [true] when the function returned from
    inside the loop. *)
Fixpoint forSteps (idRegex : RegExp) (runId : Z) (steps : list string) : M bool :=
  match steps with
  | [] => ret false
  | step :: steps' =>
      if RegExp_test idRegex step then
        core_setOutput "runId" runId ;;
        ret true
      else forSteps idRegex runId steps'
  end.

(** [for (const runId of workflowRunIds)]: [true] when the function returned
    from inside the loop. *)
Fixpoint forRunIds (idRegex : RegExp) (config : Config) (workflowRunIds : list Z)
  : M bool :=
  match workflowRunIds with
  | [] => ret false
  | runId :: rest =>
      returned <-
        tryCatch
          (steps <- getWorkflowRunJobSteps runId config ;;
           forSteps idRegex runId steps)
          (fun error =>
             if negb (String.eqb (message error) "Not Found") then throw error
             else ret false) ;;
      if returned : bool then ret true
      else forRunIds idRegex config rest
  end.

(** [new RegExp(config.commitId)]; outside the modelled fragment the model
    gives no result. *)
Definition newIdRegex (config : Config) : M RegExp :=
  match RegExp_new (commitId config) with
  | Some idRegex => ret idRegex
  | None => noResult
  end.

Definition fetchTimeout (timeoutMs : Z) : Z :=
  if WORKFLOW_FETCH_TIMEOUT_MS >? timeoutMs then timeoutMs
  else WORKFLOW_FETCH_TIMEOUT_MS.

(** One pass of the body of the [while] loop of [applyWorkflowRunId], from
    the enumeration to the end of the [for] loop over the run ids: [true]
    when the function returned. *)
Definition searchCycle (fuel : nat) (workflowId : Z) (config : Config)
    (timeoutMs : Z) : M bool :=
  let timeout := fetchTimeout timeoutMs in
  workflowRunIds <-
    retryOrDie fuel (getWorkflowRunIds workflowId config) timeout ;;
  idRegex <- newIdRegex config ;;
  forRunIds idRegex config workflowRunIds.

(** The [while] loop of [applyWorkflowRunId]. *)
Fixpoint searchLoop (fuel : nat) (workflowId : Z) (config : Config)
    (timeoutMs startTime elapsedTime : Z) : M unit :=
  match fuel with
  | O => noResult
  | S fuel' =>
      if elapsedTime <? timeoutMs then
        t <- Date_now ;;
        let elapsedTime := t - startTime in
        returned <- searchCycle fuel' workflowId config timeoutMs ;;
        if returned : bool then ret tt
        else
          sleep WORKFLOW_JOB_STEPS_RETRY_MS ;;
          searchLoop fuel' workflowId config timeoutMs startTime elapsedTime
      else throw TimeoutExceeded
  end.

(** The [try] block of [applyWorkflowRunId]. *)
Definition resolve (fuel : nat) (workflowId : Z) (config : Config) : M unit :=
  startTime <- Date_now ;;
  seconds <- lift (getNumberFromValue (workflowTimeoutSeconds config)) ;;
  let timeoutMs := orDefault seconds WORKFLOW_TIMEOUT_SECONDS * 1000 in
  t <- Date_now ;;
  let elapsedTime := t - startTime in
  searchLoop fuel workflowId config timeoutMs startTime elapsedTime.

(** The [catch] block of [applyWorkflowRunId]. *)
Definition giveUp (error : Error) : M unit :=
  core_error ("Failed to complete: " ++ message error) ;;
  core_warning "Does the token have the correct permissions?" ;;
  core_setFailed (message error).

Definition applyWorkflowRunId (fuel : nat) (workflowId : Z) (config : Config)
  : M unit :=
  tryCatch (resolve fuel workflowId config) giveUp.

End Dispatch.

(** ** [src/api.ts]

    The second copy of the resolution.  Its [getWorkflowRunIds],
    [getWorkflowRunJobSteps] and [retryOrDie] are those of [src/dispatch.ts]
    but for what they print.  Its [applyWorkflowRunId] searches for the
    module's [DISTINCT_ID], fetches the URL of the run it has identified, and
    sets the output [ActionOutputs.runId], which is ["run_id"]. *)

Module Api.

Section Api.

Variable gh : Platform.
Variable DISTINCT_ID : string.

Definition getWorkflowRunUrl (runId : Z) (config : Config) : M string :=
  tryCatch
    (response <- request (latency gh) (GetWorkflowRun (owner config) (repo config) runId)
                   (fun n => getWorkflowRun gh n (owner config) (repo config) runId) ;;
     let '(status, html_url) := response in
     if negb (status =? 200) then
       throw (mkError ("Failed to get Workflow Run state, expected 200 but received "
                       ++ Str.ofZ status))
     else ret html_url)
    (fun error =>
       core_error ("getWorkflowRunUrl: An unexpected error has occurred: "
                   ++ message error) ;;
       throw error).

Fixpoint forSteps (idRegex : RegExp) (id : Z) (config : Config)
    (steps : list string) : M bool :=
  match steps with
  | [] => ret false
  | step :: steps' =>
      if RegExp_test idRegex step then
        url <- getWorkflowRunUrl id config ;;
        core_setOutput "run_id" id ;;
        ret true
      else forSteps idRegex id config steps'
  end.

Fixpoint forRunIds (idRegex : RegExp) (config : Config) (workflowRunIds : list Z)
  : M bool :=
  match workflowRunIds with
  | [] => ret false
  | id :: rest =>
      returned <-
        tryCatch
          (steps <- getWorkflowRunJobSteps gh id config ;;
           forSteps idRegex id config steps)
          (fun error =>
             if negb (String.eqb (message error) "Not Found") then throw error
             else ret false) ;;
      if returned : bool then ret true
      else forRunIds idRegex config rest
  end.

Definition newIdRegex : M RegExp :=
  match RegExp_new DISTINCT_ID with
  | Some idRegex => ret idRegex
  | None => noResult
  end.

Definition searchCycle (fuel : nat) (workflowId : Z) (config : Config)
    (timeoutMs : Z) : M bool :=
  let timeout := fetchTimeout timeoutMs in
  workflowRunIds <-
    retryOrDie fuel (getWorkflowRunIds gh workflowId config) timeout ;;
  idRegex <- newIdRegex ;;
  forRunIds idRegex config workflowRunIds.

Fixpoint searchLoop (fuel : nat) (workflowId : Z) (config : Config)
    (timeoutMs startTime elapsedTime : Z) : M unit :=
  match fuel with
  | O => noResult
  | S fuel' =>
      if elapsedTime <? timeoutMs then
        t <- Date_now ;;
        let elapsedTime := t - startTime in
        returned <- searchCycle fuel' workflowId config timeoutMs ;;
        if returned : bool then ret tt
        else
          sleep WORKFLOW_JOB_STEPS_RETRY_MS ;;
          searchLoop fuel' workflowId config timeoutMs startTime elapsedTime
      else throw TimeoutExceeded
  end.

Definition resolve (fuel : nat) (workflowId : Z) (config : Config) : M unit :=
  startTime <- Date_now ;;
  seconds <- lift (getNumberFromValue (workflowTimeoutSeconds config)) ;;
  let timeoutMs := orDefault seconds WORKFLOW_TIMEOUT_SECONDS * 1000 in
  t <- Date_now ;;
  let elapsedTime := t - startTime in
  searchLoop fuel workflowId config timeoutMs startTime elapsedTime.

Definition applyWorkflowRunId (fuel : nat) (workflowId : Z) (config : Config)
  : M unit :=
  tryCatch (resolve fuel workflowId config) giveUp.

End Api.

End Api.

(** ** [unnamed/part_000]

    An [api.ts] whose functions read the module variables [config] and
    [octokit], which [init] sets; here they are the variables of the
    section.  Its [getWorkflowId] looks a workflow up by its file name. *)

Module Part0.

Section Part0.

Variable gh : Platform.
Variable config : Config.

(** [workflows.find((workflow) => new RegExp(workflowFilename).test(workflow.path))]:
    the pattern is compiled for each workflow looked at. *)
Fixpoint findByPath (workflowFilename : string) (workflows : list Workflow)
  : Outcome (option Workflow) :=
  match workflows with
  | [] => Ok None
  | workflow :: rest =>
      match RegExp_new workflowFilename with
      | Some re =>
          if RegExp_test re (wf_path workflow) then Ok (Some workflow)
          else findByPath workflowFilename rest
      | None => NoResult
      end
  end.

Definition getWorkflowId (workflowFilename : string) : M Z :=
  tryCatch
    (response <- request (latency gh) (ListRepoWorkflows (owner config) (repo config))
                   (fun n => listRepoWorkflows gh n (owner config) (repo config)) ;;
     let '(status, workflows) := response in
     if negb (status =? 200) then
       throw (mkError ("Failed to get workflows, expected 200 but received "
                       ++ Str.ofZ status))
     else
       found <- lift (findByPath workflowFilename workflows) ;;
       match option_map wf_id found with
       | Some workflowId => ret workflowId
       | None =>
           throw (mkError ("Unable to find ID for Workflow: " ++ workflowFilename))
       end)
    (fun error =>
       core_error ("getWorkflowId: An unexpected error has occurred: "
                   ++ message error) ;;
       throw error).

End Part0.

End Part0.

(** ** The main task, [run] *)

(** What [run] reads from the runner before its first remote call.
    [JSON_commitId] is the built-in [JSON.parse] applied to the [inputs]
    input, followed by the destructuring [const {commitId} = inputs]: it
    throws on malformed JSON and gives [None] when the property is absent. *)
Record Env := mkEnv {
  getInput : string -> string;
  context_ref : string;
  context_owner : string;
  context_repo : string;
  github_sha : option string;
  JSON_commitId : string -> Outcome (option string)
}.

(** [s.split('/')] *)
Fixpoint splitSlash (cur : string) (s : string) : list string :=
  match s with
  | EmptyString => [cur]
  | String c s' =>
      if Ascii.eqb c "/"%char then cur :: splitSlash "" s'
      else splitSlash (cur ++ String c "") s'
  end.

(** An array element or property that may be [undefined], as a template
    string prints it; [new RegExp(undefined)] is the empty pattern. *)
Definition printed (v : option string) : string :=
  match v with Some s => s | None => "undefined" end.

Definition patternOf (v : option string) : string :=
  match v with Some s => s | None => "" end.

(** U+1F625, in UTF-8. *)
Definition sadFace : string :=
  String (ascii_of_nat 240) (String (ascii_of_nat 159)
    (String (ascii_of_nat 152) (String (ascii_of_nat 165) ""))).

Definition selects (workflowRef : string) (workflow : Workflow) : bool :=
  String.eqb (wf_name workflow) workflowRef
  || String.eqb (Str.ofZ (wf_id workflow)) workflowRef
  || Str.endsWith (wf_path workflow) workflowRef.

(** [core.getInput('ref') || github.context.ref] *)
Definition refOf (env : Env) : string :=
  if String.eqb (getInput env "ref") "" then context_ref env
  else getInput env "ref".

(** The array that [run] destructures into [owner] and [repo]. *)
Definition ownerRepoOf (env : Env) : list string :=
  if String.eqb (getInput env "repo") "" then
    [context_owner env; context_repo env]
  else splitSlash "" (getInput env "repo").

Definition ownerOf (env : Env) : string := printed (nth_error (ownerRepoOf env) 0).

Definition repoOf (env : Env) : string := printed (nth_error (ownerRepoOf env) 1).

(** The [commitId] of the decoded [inputs]: of the default object when the
    input is empty, of the parsed JSON otherwise. *)
Definition decodeInputs (env : Env) : Outcome (option string) :=
  let inputsJson := getInput env "inputs" in
  if String.eqb inputsJson "" then Ok (github_sha env)
  else JSON_commitId env inputsJson.

Definition workflowNotFound (workflowRef owner repo : string) : Error :=
  mkError ("Unable to find workflow '" ++ workflowRef ++ "' in "
           ++ owner ++ "/" ++ repo ++ " " ++ sadFace).

Section Main.

Variable gh : Platform.

(** The [try] block of [run]. *)
Definition task (fuel : nat) (env : Env) : M unit :=
  let workflowRef := getInput env "workflow" in
  let token := getInput env "token" in
  let ref := refOf env in
  let owner := ownerOf env in
  let repo := repoOf env in
  commitId <- lift (decodeInputs env) ;;
  response <- request (latency gh) (ListRepoWorkflows owner repo)
                (fun n => listRepoWorkflows gh n owner repo) ;;
  let workflows := snd response in
  match find (selects workflowRef) workflows with
  | None => throw (workflowNotFound workflowRef owner repo)
  | Some foundWorkflow =>
      dispatchResp <-
        request (latency gh)
          (CreateDispatch owner repo (wf_id foundWorkflow) ref)
          (fun n => createDispatch gh n owner repo (wf_id foundWorkflow) ref) ;;
      core_setOutput "workflowId" (wf_id foundWorkflow) ;;
      let config :=
        mkConfig token ref repo owner (patternOf commitId)
          (getInput env "workflow_timeout_seconds") in
      applyWorkflowRunId gh fuel (wf_id foundWorkflow) config
  end.

(** The [catch] block of [run]. *)
Definition onError (e : Error) : M unit :=
  if Str.endsWith (message e) "a disabled workflow" then
    core_warning "Workflow is disabled, no action was taken"
  else core_setFailed (message e).

Definition run (fuel : nat) (env : Env) : M unit :=
  tryCatch (task fuel env) onError.

End Main.

(** ** Reading the trace *)

Definition events (w : World) : list Event := rev (map snd (trace w)).

Definition isOutput (name : string) (ev : Event) : option Z :=
  match ev with
  | SetOutput n v => if String.eqb n name then Some v else None
  | _ => None
  end.

(** The value of the output [name]: the one set last. *)
Fixpoint outputIn (name : string) (tr : list (Z * Event)) : option Z :=
  match tr with
  | [] => None
  | (_, ev) :: tr' =>
      match isOutput name ev with
      | Some v => Some v
      | None => outputIn name tr'
      end
  end.

Definition output (name : string) (w : World) : option Z := outputIn name (trace w).

Definition isSetOutput (ev : Event) : bool :=
  match ev with SetOutput _ _ => true | _ => false end.

Definition isSetFailed (ev : Event) : bool :=
  match ev with SetFailed _ => true | _ => false end.

(** The messages the operation was marked failed with, oldest first. *)
Definition failures (w : World) : list string :=
  flat_map (fun ev => match ev with SetFailed m => [m] | _ => [] end) (events w).

(** The run ids whose jobs were requested, oldest first. *)
Definition inspected (w : World) : list Z :=
  flat_map (fun ev => match ev with
                      | ListJobsForWorkflowRun p => [lj_run_id p]
                      | _ => []
                      end) (events w).


(** The budgets [retryOrDie] was entered with, each with the clock at that
    moment, oldest first. *)
Definition budgets (w : World) : list (Z * Z) :=
  flat_map (fun tev => match tev with
                       | (t, RetryOrDie b) => [(t, b)]
                       | _ => []
                       end) (rev (trace w)).

(** The outputs set, each with its name, oldest first. *)
Definition outputs (w : World) : list (string * Z) :=
  flat_map (fun ev => match ev with SetOutput n v => [(n, v)] | _ => [] end)
    (events w).

(** The remote calls made, oldest first. *)
Definition isRemoteCall (ev : Event) : bool :=
  match ev with
  | ListWorkflowRuns _ | ListJobsForWorkflowRun _ | ListRepoWorkflows _ _
  | CreateDispatch _ _ _ _ | GetWorkflowRun _ _ _ => true
  | _ => false
  end.

Definition remoteCalls (w : World) : list Event := filter isRemoteCall (events w).

(** ** Platforms and configurations to run the model on *)

(** The world at the start: the clock at 0, no call made, nothing traced. *)
Definition w0 : World := mkWorld 0 0 [].

Module Demo.

Definition job (names : list string) : Job := mkJob 1 (Some (map mkStep names)).

(** The scenario of the specification: the enumeration returns the runs 101
    and 102, and run 102 has a step that carries the marker [M1]; calls take
    no time. *)
Definition gh : Platform :=
  mkPlatform
    (fun _ _ => Response 200 [mkWorkflowRun 101; mkWorkflowRun 102])
    (fun _ p => if lj_run_id p =? 102
                then Response 200 [job ["checkout"; "echo M1 done"]]
                else Response 200 [job ["checkout"; "build"]])
    (fun _ _ _ => Response 200 [])
    (fun _ _ _ _ _ => Response 204 tt)
    (fun _ _ _ runId => Response 200 ("https://github.test/runs/" ++ Str.ofZ runId))
    (fun _ => 0).

(** The marker [M1], the branch [main] and the default overall timeout. *)
Definition config : Config :=
  mkConfig "t" "refs/heads/main" "repo" "owner" "M1" "".

(** Run 101 is not queryable yet, the request for run 102 fails, run 103
    carries the marker; every call takes 250 ms. *)
Definition flaky : Platform :=
  mkPlatform
    (fun _ _ => Response 200 [mkWorkflowRun 101; mkWorkflowRun 102; mkWorkflowRun 103])
    (fun _ p => if lj_run_id p =? 101 then Rejected (mkError "Not Found")
                else if lj_run_id p =? 102 then Rejected (mkError "Server Error")
                else Response 200 [job ["checkout"; "echo M1 done"]])
    (fun _ _ _ => Response 200 [])
    (fun _ _ _ _ _ => Response 204 tt)
    (fun _ _ _ runId => Response 200 ("https://github.test/runs/" ++ Str.ofZ runId))
    (fun _ => 250).

(** The workflow [echo-2.yaml] exists and is disabled. *)
Definition echo2 : Workflow :=
  mkWorkflow 1854248 "Message Echo 2" ".github/workflows/echo-2.yaml".

Definition disabled : Platform :=
  mkPlatform
    (fun _ _ => Response 200 [])
    (fun _ _ => Rejected (mkError "Not Found"))
    (fun _ _ _ => Response 200 [mkWorkflow 1854247 "Message Echo 1"
                                  ".github/workflows/echo-1.yaml"; echo2])
    (fun _ _ _ _ _ =>
       Rejected (mkError "Cannot trigger a 'workflow_dispatch' on a disabled workflow"))
    (fun _ _ _ _ => Rejected (mkError "Not Found"))
    (fun _ => 100).

Definition env : Env :=
  mkEnv (fun name => if String.eqb name "workflow" then "echo-2.yaml"
                     else if String.eqb name "token" then "t"
                     else "")
    "refs/heads/main" "owner" "repo" None (fun _ => Ok None).

(** Every call takes 100 ms; run 102 carries the marker [M1] from the
    ninth remote call on, and no run carries it before. *)
Definition late : Platform :=
  mkPlatform
    (fun _ _ => Response 200 [mkWorkflowRun 101; mkWorkflowRun 102])
    (fun n p => if ((8 <=? n)%nat && (lj_run_id p =? 102))%bool
                then Response 200 [job ["checkout"; "echo M1 done"]]
                else Response 200 [job ["checkout"; "build"]])
    (fun _ _ _ => Response 200 [])
    (fun _ _ _ _ _ => Response 204 tt)
    (fun _ _ _ runId => Response 200 ("https://github.test/runs/" ++ Str.ofZ runId))
    (fun _ => 100).


(** A marker that no step name carries, and an overall timeout of 10 s. *)
Definition strayConfig : Config :=
  mkConfig "t" "refs/heads/main" "repo" "owner" "M2" "10".

End Demo.

(** ** Predicates used by the statements *)

(** A marker no character of which has a special meaning in a pattern. *)
Definition regexSafe (marker : string) : bool :=
  forallb (fun c => negb (isSyntaxCharacter c)) (Str.chars marker).

(** The de-duplicated step names of a jobs response, as
    [getWorkflowRunJobSteps] returns them. *)
Definition stepSet (jobs : list Job) : list string :=
  Array_from (Set_new (allStepsOf jobs)).

(** Some step name of the list passes the marker test. *)
Definition stepsMatch (idRegex : RegExp) (steps : list string) : bool :=
  existsb (RegExp_test idRegex) steps.

(** The world after an event was recorded, after a sleep and after a remote
    call was answered. *)
Definition noted (ev : Event) (w : World) : World :=
  mkWorld (now w) (calls w) ((now w, ev) :: trace w).

Definition slept (ms : Z) (w : World) : World :=
  mkWorld (now w + ms) (calls w) ((now w, SetTimeout ms) :: trace w).

Definition answered (lat : nat -> Z) (ev : Event) (w : World) : World :=
  mkWorld (now w + lat (calls w)) (S (calls w)) ((now w, ev) :: trace w).

Definition jobsParams (config : Config) (runId : Z) : ListJobsParams :=
  mkListJobsParams (owner config) (repo config) runId "latest".

Definition runIdsFailure (msg : string) : Event :=
  CoreError ("getWorkflowRunIds: An unexpected error has occurred: " ++ msg).

Definition jobStepsFailure (msg : string) : Event :=
  CoreError ("getWorkflowRunJobs: An unexpected error has occurred: " ++ msg).

Definition unexpectedRunsStatus (status : Z) : Error :=
  mkError ("Failed to get Workflow runs, expected 200 but received "
           ++ Str.ofZ status).

Definition unexpectedJobsStatus (status : Z) : Error :=
  mkError ("Failed to get Workflow Run Jobs, expected 200 but received "
           ++ Str.ofZ status).

(** The world [giveUp] leaves. *)
Definition givenUp (error : Error) (w : World) : World :=
  noted (SetFailed (message error))
    (noted (CoreWarning "Does the token have the correct permissions?")
       (noted (CoreError ("Failed to complete: " ++ message error)) w)).

(** [w'] comes after [w]: the trace of [w] was extended by events that all
    satisfy [P]. *)
Definition Added (P : Event -> Prop) (w w' : World) : Prop :=
  exists rest,
    trace w' = (rest ++ trace w)%list /\ Forall (fun tev => P (snd tev)) rest.

(** [m] only extends the trace, by events that satisfy [P]. *)
Definition keeps (P : Event -> Prop) {A} (m : M A) : Prop :=
  forall w r w', m w = (r, w') -> Added P w w'.

(** An event that is not an entry into [retryOrDie] with a budget other than
    [budget]. *)
Definition BudgetIs (budget : Z) (ev : Event) : Prop :=
  forall b, ev = RetryOrDie b -> b = budget.

(** An event that neither sets an output nor marks the operation failed. *)
Definition quietEvent (ev : Event) : Prop :=
  isSetOutput ev = false /\ isSetFailed ev = false.


(** A producer for [retryOrDie]: its invocation as the [n]-th remote call of
    the execution takes [took n] milliseconds and resolves to [answers n]. *)
Definition producer {T} (took : nat -> Z) (answers : nat -> list T) : M (list T) :=
  fun w =>
    (Ok (answers (calls w)),
     mkWorld (now w + took (calls w)) (S (calls w)) (trace w)).

(** The time [n] invocations take from the [c]-th on, each followed by the
    1-second backoff. *)
Fixpoint spent (took : nat -> Z) (c n : nat) : Z :=
  match n with
  | O => 0
  | S n' => took c + 1000 + spent took (S c) n'
  end.

(** [Skips gh idRegex config ids w w']: from [w], the run ids [ids] are
    inspected one after the other and none is identified, each because its
    step names were fetched and none passes the marker test, or because the
    request was rejected with "Not Found"; [w'] is the world after the
    last. *)
Inductive Skips (gh : Platform) (idRegex : RegExp) (config : Config)
  : list Z -> World -> World -> Prop :=
  | Skips_nil w : Skips gh idRegex config [] w w
  | Skips_no_match runId ids w jobs w' :
      listJobsForWorkflowRun gh (calls w) (jobsParams config runId)
      = Response 200 jobs ->
      stepsMatch idRegex (stepSet jobs) = false ->
      Skips gh idRegex config ids
        (answered (latency gh) (ListJobsForWorkflowRun (jobsParams config runId)) w)
        w' ->
      Skips gh idRegex config (runId :: ids) w w'
  | Skips_Not_Found runId ids w e w' :
      listJobsForWorkflowRun gh (calls w) (jobsParams config runId) = Rejected e ->
      message e = "Not Found" ->
      Skips gh idRegex config ids
        (noted (jobStepsFailure "Not Found")
           (answered (latency gh)
              (ListJobsForWorkflowRun (jobsParams config runId)) w))
        w' ->
      Skips gh idRegex config (runId :: ids) w w'.

(** [Cycles gh workflowId config timeoutMs startTime fuel e w fuel' e' w']:
    the [while] loop of [applyWorkflowRunId], at its head with
    [elapsedTime = e] in world [w], runs some search cycles that each find
    nothing and sleep, and is at its head again with [elapsedTime = e'] in
    world [w']. *)
Inductive Cycles (gh : Platform) (workflowId : Z) (config : Config)
    (timeoutMs startTime : Z)
  : nat -> Z -> World -> nat -> Z -> World -> Prop :=
  | Cycles_none fuel e w :
      Cycles gh workflowId config timeoutMs startTime fuel e w fuel e w
  | Cycles_more fuel e w w1 fuel' e' w' :
      e < timeoutMs ->
      searchCycle gh fuel workflowId config timeoutMs w = (Ok false, w1) ->
      Cycles gh workflowId config timeoutMs startTime
        fuel (now w - startTime) (slept WORKFLOW_JOB_STEPS_RETRY_MS w1) fuel' e' w' ->
      Cycles gh workflowId config timeoutMs startTime (S fuel) e w fuel' e' w'.

(** What the search for the run of [workflowId] adds to the trace while it
    has neither found the run nor given up: the run-listing call with its
    query, job-listing calls in the repository of [config], sleeps of 1 s and
    of 5 s, the entries into [retryOrDie] and the errors logged. *)
Definition searchEvent (workflowId : Z) (config : Config) (ev : Event) : Prop :=
  match ev with
  | ListWorkflowRuns p => p = listRunsParams workflowId config
  | ListJobsForWorkflowRun p => p = jobsParams config (lj_run_id p)
  | SetTimeout ms => ms = 1000 \/ ms = WORKFLOW_JOB_STEPS_RETRY_MS
  | RetryOrDie _ | CoreError _ => True
  | _ => False
  end.

(** [w'] is [w] after a search that ended by setting the output [runId] to
    [runId], the run whose jobs it had requested last. *)
Definition Found (workflowId : Z) (config : Config) (runId : Z) (w w' : World)
  : Prop :=
  exists w1 seen,
    Added (searchEvent workflowId config) w w1
    /\ inspected w1 = (inspected w ++ seen ++ [runId])%list
    /\ w' = noted (SetOutput "runId" runId) w1.

(** [w'] is [w] after a search that ended in the [catch] block of
    [applyWorkflowRunId] with the error [e]. *)
Definition GaveUp (workflowId : Z) (config : Config) (e : Error) (w w' : World)
  : Prop :=
  exists w1, Added (searchEvent workflowId config) w w1 /\ w' = givenUp e w1.

(** [config] with another value of the [workflow_timeout_seconds] input. *)
Definition withTimeout (config : Config) (value : string) : Config :=
  mkConfig (token config) (ref config) (repo config) (owner config)
    (commitId config) value.

(** A file name made of pattern characters and dots, as [echo-2.yaml]. *)
Definition dotSafe (filename : string) : bool :=
  forallb (fun c => Ascii.eqb c "."%char || negb (isSyntaxCharacter c))
    (Str.chars filename).

(** [s] is [m] but for the characters at which [m] has a dot, where [s] has
    any character that is not a line terminator. *)
Fixpoint instanceOf (m s : string) : bool :=
  match m, s with
  | EmptyString, EmptyString => true
  | String a m', String b s' =>
      (Ascii.eqb a b || Ascii.eqb a "."%char && negb (isLineTerminator b))
      && instanceOf m' s'
  | _, _ => false
  end.

Definition noSlash (s : string) : bool :=
  forallb (fun c => negb (Ascii.eqb c "/"%char)) (Str.chars s).

Definition urlFailure (msg : string) : Event :=
  CoreError ("getWorkflowRunUrl: An unexpected error has occurred: " ++ msg).

Definition unexpectedRunStatus (status : Z) : Error :=
  mkError ("Failed to get Workflow Run state, expected 200 but received "
           ++ Str.ofZ status).

Definition workflowIdFailure (msg : string) : Event :=
  CoreError ("getWorkflowId: An unexpected error has occurred: " ++ msg).

(** The [config] object that [run] builds for [applyWorkflowRunId] when the
    decoded inputs have the [commitId] property [commitId]. *)
Definition configOf (env : Env) (commitId : option string) : Config :=
  mkConfig (getInput env "token") (refOf env) (repoOf env) (ownerOf env)
    (patternOf commitId) (getInput env "workflow_timeout_seconds").

(** [m] gives a result, and the clock is not earlier after it. *)
Definition steady {A} (m : M A) : Prop :=
  forall w, fst (m w) <> NoResult /\ now w <= now (snd (m w)).

(** * Properties *)

(** ** Strings and patterns *)

Lemma prefix_append (m post : string) : String.prefix m (m ++ post) = true.
Proof.
  induction m as [|c m IH]; simpl.
  - now destruct post.
  - destruct (ascii_dec c c) as [_|Hne]; [exact IH | now elim Hne].
Qed.

Lemma includes_prefix (s m : string) :
  String.prefix m s = true -> Str.includes s m = true.
Proof. destruct s; simpl; intros ->; reflexivity. Qed.

Lemma includes_append (pre m post : string) :
  Str.includes (pre ++ m ++ post) m = true.
Proof.
  induction pre as [|c pre IH].
  - apply includes_prefix. exact (prefix_append m post).
  - simpl. rewrite IH. apply orb_true_r.
Qed.

Lemma prefix_split (m s : string) :
  String.prefix m s = true -> exists post, s = m ++ post.
Proof.
  revert s. induction m as [|c m IH]; intros s H.
  - now exists s.
  - destruct s as [|d s]; simpl in H; [discriminate|].
    destruct (ascii_dec c d) as [->|]; [|discriminate].
    destruct (IH _ H) as [post ->]. now exists post.
Qed.

Lemma includes_split (s m : string) :
  Str.includes s m = true -> exists pre post, s = pre ++ m ++ post.
Proof.
  induction s as [|c s IH]; intros H.
  - change (String.prefix m "" || false = true) in H.
    rewrite orb_false_r in H. apply prefix_split in H.
    destruct H as [post H]. now exists "", post.
  - change (String.prefix m (String c s) || Str.includes s m = true) in H.
    apply orb_true_iff in H. destruct H as [H|H].
    + apply prefix_split in H. destruct H as [post H]. now exists "", post.
    + destruct (IH H) as (pre & post & ->). now exists (String c pre), post.
Qed.

Lemma safe_parses (p : list ascii) :
  forallb (fun c => negb (isSyntaxCharacter c)) p = true ->
  parseAtoms p = Some (map Lit p).
Proof.
  induction p as [|c p IH]; simpl; intros H; [reflexivity|].
  apply andb_true_iff in H. destruct H as [Hc Hp].
  apply negb_true_iff in Hc.
  destruct (Ascii.eqb c ".") eqn:E1.
  { apply Ascii.eqb_eq in E1. subst c. discriminate. }
  destruct (Ascii.eqb c "\") eqn:E2.
  { apply Ascii.eqb_eq in E2. subst c. discriminate. }
  rewrite Hc, (IH Hp). reflexivity.
Qed.

Lemma literal_matchHere (m s : string) :
  matchHere (map Lit (Str.chars m)) s = String.prefix m s.
Proof.
  revert s. induction m as [|c m IH]; intros s; simpl.
  - now destruct s.
  - destruct s as [|d s]; [reflexivity|]. simpl.
    destruct (ascii_dec c d) as [->|Hne].
    + rewrite Ascii.eqb_refl. apply IH.
    + apply Ascii.eqb_neq in Hne. now rewrite Hne.
Qed.

Lemma literal_test (m s : string) :
  RegExp_test (map Lit (Str.chars m)) s = Str.includes s m.
Proof.
  induction s as [|d s IH]; simpl; rewrite literal_matchHere.
  - reflexivity.
  - now rewrite IH.
Qed.

(** ** Step names of a run: flattening and the [Set] *)










Lemma pushAll_app (allSteps : list string) (job : Job) :
  pushAll allSteps job = (allSteps ++ stepNames job)%list.
Proof.
  unfold pushAll. generalize (stepNames job) as l. intros l. revert allSteps.
  induction l as [|x l IH]; intros acc; simpl.
  - now rewrite app_nil_r.
  - rewrite IH, <- app_assoc. reflexivity.
Qed.

Lemma allStepsOf_flat (jobs : list Job) :
  allStepsOf jobs = flat_map stepNames jobs.
Proof.
  unfold allStepsOf.
  enough (H : forall acc, fold_left pushAll jobs acc
                          = (acc ++ flat_map stepNames jobs)%list) by apply H.
  induction jobs as [|j jobs IH]; intros acc; simpl.
  - now rewrite app_nil_r.
  - rewrite IH, pushAll_app, <- app_assoc. reflexivity.
Qed.

(** ** The monad and the primitives *)

Lemma bind_Ok {A B} (m : M A) (k : A -> M B) (w w1 : World) (a : A) :
  m w = (Ok a, w1) -> bind m k w = k a w1.
Proof. unfold bind. now intros ->. Qed.

Lemma bind_Throw {A B} (m : M A) (k : A -> M B) (w w1 : World) (e : Error) :
  m w = (Throw e, w1) -> bind m k w = (Throw e, w1).
Proof. unfold bind. now intros ->. Qed.

Lemma tryCatch_Ok {A} (m : M A) (h : Error -> M A) (w w1 : World) (a : A) :
  m w = (Ok a, w1) -> tryCatch m h w = (Ok a, w1).
Proof. unfold tryCatch. now intros ->. Qed.

Lemma tryCatch_Throw {A} (m : M A) (h : Error -> M A) (w w1 : World) (e : Error) :
  m w = (Throw e, w1) -> tryCatch m h w = h e w1.
Proof. unfold tryCatch. now intros ->. Qed.

Lemma request_Response {A} lat ev (answer : nat -> Reply A) w status data :
  answer (calls w) = Response status data ->
  request lat ev answer w = (Ok (status, data), answered lat ev w).
Proof. unfold request. now intros ->. Qed.

Lemma request_Rejected {A} lat ev (answer : nat -> Reply A) w e :
  answer (calls w) = Rejected e ->
  request lat ev answer w = (Throw e, answered lat ev w).
Proof. unfold request. now intros ->. Qed.

(** ** What one remote call makes of its answer *)

Section Calls.

Variable gh : Platform.
Variables (workflowId : Z) (config : Config) (w : World).

Let runsEvent := ListWorkflowRuns (listRunsParams workflowId config).

Lemma getWorkflowRunIds_200 (runs : list WorkflowRun) :
  listWorkflowRuns gh (calls w) (listRunsParams workflowId config)
  = Response 200 runs ->
  getWorkflowRunIds gh workflowId config w
  = (Ok (map run_id runs), answered (latency gh) runsEvent w).
Proof.
  intros H. unfold getWorkflowRunIds.
  apply tryCatch_Ok. erewrite bind_Ok by (apply request_Response, H).
  reflexivity.
Qed.

Lemma getWorkflowRunIds_status (status : Z) (runs : list WorkflowRun) :
  listWorkflowRuns gh (calls w) (listRunsParams workflowId config)
  = Response status runs ->
  status <> 200 ->
  getWorkflowRunIds gh workflowId config w
  = (Throw (unexpectedRunsStatus status),
     noted (runIdsFailure (message (unexpectedRunsStatus status)))
       (answered (latency gh) runsEvent w)).
Proof.
  intros H Hs. unfold getWorkflowRunIds.
  erewrite tryCatch_Throw.
  2:{ erewrite bind_Ok by (apply request_Response, H).
      cbv beta iota. apply Z.eqb_neq in Hs. rewrite Hs. reflexivity. }
  reflexivity.
Qed.

Lemma getWorkflowRunIds_Rejected (e : Error) :
  listWorkflowRuns gh (calls w) (listRunsParams workflowId config) = Rejected e ->
  getWorkflowRunIds gh workflowId config w
  = (Throw e, noted (runIdsFailure (message e)) (answered (latency gh) runsEvent w)).
Proof.
  intros H. unfold getWorkflowRunIds.
  erewrite tryCatch_Throw by (apply bind_Throw, request_Rejected, H).
  reflexivity.
Qed.

Variable runId : Z.

Let jobsEvent := ListJobsForWorkflowRun (jobsParams config runId).

Lemma getWorkflowRunJobSteps_200 (jobs : list Job) :
  listJobsForWorkflowRun gh (calls w) (jobsParams config runId) = Response 200 jobs ->
  getWorkflowRunJobSteps gh runId config w
  = (Ok (stepSet jobs), answered (latency gh) jobsEvent w).
Proof.
  intros H. unfold getWorkflowRunJobSteps.
  apply tryCatch_Ok. erewrite bind_Ok by (apply request_Response, H).
  reflexivity.
Qed.

Lemma getWorkflowRunJobSteps_status (status : Z) (jobs : list Job) :
  listJobsForWorkflowRun gh (calls w) (jobsParams config runId)
  = Response status jobs ->
  status <> 200 ->
  getWorkflowRunJobSteps gh runId config w
  = (Throw (unexpectedJobsStatus status),
     noted (jobStepsFailure (message (unexpectedJobsStatus status)))
       (answered (latency gh) jobsEvent w)).
Proof.
  intros H Hs. unfold getWorkflowRunJobSteps.
  erewrite tryCatch_Throw.
  2:{ erewrite bind_Ok by (apply request_Response, H).
      cbv beta iota. apply Z.eqb_neq in Hs. rewrite Hs. reflexivity. }
  reflexivity.
Qed.

Lemma getWorkflowRunJobSteps_Rejected (e : Error) :
  listJobsForWorkflowRun gh (calls w) (jobsParams config runId) = Rejected e ->
  getWorkflowRunJobSteps gh runId config w
  = (Throw e, noted (jobStepsFailure (message e)) (answered (latency gh) jobsEvent w)).
Proof.
  intros H. unfold getWorkflowRunJobSteps.
  erewrite tryCatch_Throw by (apply bind_Throw, request_Rejected, H).
  reflexivity.
Qed.

End Calls.

(** ** The run-listing query *)

Lemma getBranchName_heads (branch : string) :
  getBranchName ("refs/heads/" ++ branch) = Some branch.
Proof.
  unfold getBranchName, Str.startsWith.
  now rewrite (prefix_append "refs/heads/" branch).
Qed.

Lemma getWorkflowRunIds_sends (gh : Platform) (workflowId : Z) (config : Config)
    (w : World) :
  exists r w',
    getWorkflowRunIds gh workflowId config w = (r, w') /\
    calls w' = S (calls w) /\
    In (now w, ListWorkflowRuns (listRunsParams workflowId config)) (trace w').
Proof.
  destruct (listWorkflowRuns gh (calls w) (listRunsParams workflowId config))
    as [status runs|e] eqn:E.
  - destruct (Z.eq_dec status 200) as [->|Hs].
    + eexists _, _. split; [apply getWorkflowRunIds_200, E|].
      split; [reflexivity | now left].
    + eexists _, _. split; [apply (getWorkflowRunIds_status _ _ _ _ _ _ E Hs)|].
      split; [reflexivity | right; now left].
  - eexists _, _. split; [apply getWorkflowRunIds_Rejected, E|].
    split; [reflexivity | right; now left].
Qed.

(** ** The retry envelope *)

Lemma retryLoop_expired {T} (retryFunc : M (list T)) timeoutMs startTime elapsedTime
    fuel w :
  timeoutMs <= elapsedTime ->
  retryLoop (S fuel) retryFunc timeoutMs startTime elapsedTime w
  = (Throw TimedOutFetching, w).
Proof.
  intros H. cbn [retryLoop]. apply Z.ltb_ge in H. now rewrite H.
Qed.

Lemma retryLoop_attempt {T} (retryFunc : M (list T)) timeoutMs startTime elapsedTime
    fuel w :
  elapsedTime < timeoutMs ->
  retryLoop (S fuel) retryFunc timeoutMs startTime elapsedTime w
  = match retryFunc w with
    | (Ok response, w1) =>
        if (0 <? List.length response)%nat then (Ok response, w1)
        else retryLoop fuel retryFunc timeoutMs startTime (now w - startTime)
               (slept 1000 w1)
    | (Throw e, w1) => (Throw e, w1)
    | (NoResult, w1) => (NoResult, w1)
    end.
Proof.
  intros H. cbn [retryLoop]. apply Z.ltb_lt in H. rewrite H.
  unfold bind at 1. unfold Date_now. unfold bind at 1.
  destruct (retryFunc w) as [[response|e|] w1]; try reflexivity.
  destruct (0 <? List.length response)%nat; reflexivity.
Qed.

Lemma retryOrDie_enters {T} (retryFunc : M (list T)) timeoutMs fuel w :
  retryOrDie fuel retryFunc timeoutMs w
  = retryLoop fuel retryFunc timeoutMs (now w) 0 (noted (RetryOrDie timeoutMs) w).
Proof. reflexivity. Qed.

Lemma producer_calls {T} took (answers : nat -> list T) fuel timeoutMs startTime :
  forall elapsedTime w r w',
    retryLoop fuel (producer took answers) timeoutMs startTime elapsedTime w = (r, w') ->
    (calls w <= calls w')%nat.
Proof.
  induction fuel as [|fuel IH]; intros e w r w' H.
  - inversion H. lia.
  - destruct (Z.lt_ge_cases e timeoutMs) as [Hlt|Hge].
    + rewrite (retryLoop_attempt _ _ _ _ _ _ Hlt) in H. unfold producer at 1 in H.
      destruct (0 <? List.length (answers (calls w)))%nat.
      * inversion H. simpl. lia.
      * apply IH in H. simpl in H. lia.
    + rewrite (retryLoop_expired _ _ _ _ _ _ Hge) in H. inversion H. lia.
Qed.

Section Producer.

Context {T : Type}.
Variables (took : nat -> Z) (answers : nat -> list T).
Hypothesis took_nonneg : forall k, 0 <= took k.
Variables (timeoutMs startTime : Z).

Lemma spent_nonneg (c n : nat) : 0 <= spent took c n.
Proof.
  revert c. induction n as [|n IH]; intros c; simpl; [lia|].
  specialize (IH (S c)). specialize (took_nonneg c). lia.
Qed.

Lemma retryLoop_succeeds (xs : list T) :
  xs <> [] ->
  forall n fuel elapsedTime w,
    elapsedTime <= now w - startTime ->
    (forall k, (k < n)%nat -> answers (calls w + k) = []) ->
    answers (calls w + n) = xs ->
    now w - startTime + spent took (calls w) n < timeoutMs ->
    (n < fuel)%nat ->
    exists w',
      retryLoop fuel (producer took answers) timeoutMs startTime elapsedTime w
      = (Ok xs, w')
      /\ calls w' = S (calls w + n)
      /\ now w' = now w + spent took (calls w) n + took (calls w + n).
Proof.
  intros Hxs. induction n as [|n IH]; intros fuel e w He Hempty Hlast Htime Hfuel;
    (destruct fuel as [|fuel]; [lia|]);
    pose proof (took_nonneg (calls w)) as Ht.
  - simpl in Htime. rewrite retryLoop_attempt by lia. unfold producer at 1.
    rewrite Nat.add_0_r in Hlast. rewrite Hlast.
    destruct xs as [|x xs']; [congruence|]. cbn [List.length Nat.ltb Nat.leb].
    eexists. split; [reflexivity|]. simpl. rewrite !Nat.add_0_r. split; lia.
  - pose proof (spent_nonneg (S (calls w)) n) as Hs. simpl in Htime.
    rewrite retryLoop_attempt by lia. unfold producer at 1.
    specialize (Hempty 0%nat) as H0. rewrite Nat.add_0_r in H0.
    rewrite H0 by lia. cbn [List.length Nat.ltb Nat.leb].
    edestruct (IH fuel (now w - startTime)
                 (slept 1000 (mkWorld (now w + took (calls w)) (S (calls w)) (trace w))))
      as (w' & E & Hc & Hn).
    + simpl. lia.
    + intros k Hk. simpl. rewrite <- Nat.add_succ_r. apply Hempty. lia.
    + simpl. now rewrite <- Nat.add_succ_r.
    + simpl. lia.
    + lia.
    + exists w'. split; [exact E|]. simpl in *.
      rewrite <- Nat.add_succ_r in Hc, Hn. split; lia.
Qed.

Lemma retryLoop_gives_up :
  (forall k, answers k = []) ->
  forall bound fuel elapsedTime w,
    elapsedTime <= now w - startTime ->
    timeoutMs - (now w - startTime) <= Z.of_nat bound ->
    (bound + 2 <= fuel)%nat ->
    exists n w',
      retryLoop fuel (producer took answers) timeoutMs startTime elapsedTime w
      = (Throw TimedOutFetching, w')
      /\ calls w' = (calls w + n)%nat
      /\ now w' = now w + spent took (calls w) n
      /\ (exists rest, trace w' = (rest ++ trace w)%list
                       /\ map snd rest = repeat (SetTimeout 1000) n)
      /\ match n with
         | O => timeoutMs <= elapsedTime
         | S m =>
             elapsedTime < timeoutMs
             /\ timeoutMs <= now w - startTime + spent took (calls w) m
             /\ match m with
                | O => True
                | S m' => now w - startTime + spent took (calls w) m' < timeoutMs
                end
         end.
Proof.
  intros Hempty. induction bound as [|bound IH]; intros fuel e w He Hb Hfuel;
    (destruct fuel as [|fuel]; [lia|]);
    (destruct (Z.lt_ge_cases e timeoutMs) as [Hlt|Hge];
     [| exists 0%nat, w; rewrite retryLoop_expired by exact Hge;
        rewrite Nat.add_0_r; simpl;
        repeat split; try lia; exists []; now split ]);
    rewrite retryLoop_attempt by exact Hlt; unfold producer at 1;
    rewrite Hempty; cbn [List.length Nat.ltb Nat.leb];
    pose proof (took_nonneg (calls w)) as Ht;
    set (w2 := slept 1000 (mkWorld (now w + took (calls w)) (S (calls w)) (trace w))).
  - destruct fuel as [|fuel]; [lia|].
    exists 1%nat, w2. rewrite retryLoop_expired by lia.
    subst w2. simpl. repeat split; try lia.
    exists [(now w + took (calls w), SetTimeout 1000)]. now split.
  - destruct (IH fuel (now w - startTime) w2) as (n & w' & E & Hc & Hn & Htr & Hchk).
    + subst w2. simpl. lia.
    + subst w2. simpl. lia.
    + lia.
    + exists (S n), w'. split; [exact E|]. subst w2. simpl in *.
      split; [lia|]. split; [lia|]. split.
      * destruct Htr as (rest & -> & Hrest).
        exists (rest ++ [(now w + took (calls w), SetTimeout 1000)])%list.
        split; [now rewrite <- app_assoc|].
        rewrite map_app, Hrest. simpl. now rewrite <- repeat_cons.
      * split; [exact Hlt|]. destruct n as [|m].
        -- simpl. split; [lia|exact I].
        -- destruct Hchk as (H1 & H2 & H3). simpl. split; [lia|].
           destruct m as [|m']; simpl in *; lia.
Qed.

End Producer.

Lemma spent_snoc (took : nat -> Z) (c n : nat) :
  spent took c (S n) = spent took c n + took (c + n)%nat + 1000.
Proof.
  revert c. induction n as [|n IH]; intros c.
  - simpl. rewrite Nat.add_0_r. lia.
  - change (spent took c (S (S n))) with (took c + 1000 + spent took (S c) (S n)).
    rewrite IH. simpl. rewrite <- Nat.add_succ_r. lia.
Qed.

Lemma spent_instant (took : nat -> Z) (c n : nat) :
  (forall k, took k = 0) -> spent took c n = Z.of_nat n * 1000.
Proof.
  intros H. revert c. induction n as [|n IH]; intros c; [reflexivity|].
  cbn [spent]. rewrite IH, H. lia.
Qed.

(** ** Traces only grow *)

Lemma Added_refl P w : Added P w w.
Proof. exists []. now split. Qed.

Lemma Added_trans P w1 w2 w3 : Added P w1 w2 -> Added P w2 w3 -> Added P w1 w3.
Proof.
  intros (r1 & E1 & F1) (r2 & E2 & F2). exists (r2 ++ r1)%list. split.
  - now rewrite E2, E1, app_assoc.
  - apply Forall_app. now split.
Qed.

Lemma Added_step (P : Event -> Prop) w w' t ev :
  trace w' = (t, ev) :: trace w -> P ev -> Added P w w'.
Proof.
  intros E H. exists [(t, ev)]. split; [exact E|]. now constructor.
Qed.



Lemma keeps_ret P {A} (a : A) : keeps P (ret a).
Proof. intros w r w' E. inversion E. apply Added_refl. Qed.

Lemma keeps_throw P {A} (e : Error) : keeps P (@throw A e).
Proof. intros w r w' E. inversion E. apply Added_refl. Qed.

Lemma keeps_noResult P {A} : keeps P (@noResult A).
Proof. intros w r w' E. inversion E. apply Added_refl. Qed.

Lemma keeps_Date_now P : keeps P Date_now.
Proof. intros w r w' E. inversion E. apply Added_refl. Qed.

Lemma keeps_bind P {A B} (m : M A) (k : A -> M B) :
  keeps P m -> (forall a, keeps P (k a)) -> keeps P (bind m k).
Proof.
  intros Hm Hk w r w' E. unfold bind in E.
  destruct (m w) as [[a|e|] w1] eqn:Em; specialize (Hm _ _ _ Em).
  - eapply Added_trans; [exact Hm | eapply Hk, E].
  - now inversion E; subst.
  - now inversion E; subst.
Qed.

Lemma keeps_tryCatch P {A} (m : M A) (h : Error -> M A) :
  keeps P m -> (forall e, keeps P (h e)) -> keeps P (tryCatch m h).
Proof.
  intros Hm Hh w r w' E. unfold tryCatch in E.
  destruct (m w) as [[a|e|] w1] eqn:Em; specialize (Hm _ _ _ Em).
  - now inversion E; subst.
  - eapply Added_trans; [exact Hm | eapply Hh, E].
  - now inversion E; subst.
Qed.

Lemma keeps_record (P : Event -> Prop) ev : P ev -> keeps P (record ev).
Proof. intros H w r w' E. inversion E. now eapply Added_step. Qed.

Lemma keeps_sleep (P : Event -> Prop) ms : P (SetTimeout ms) -> keeps P (sleep ms).
Proof. intros H w r w' E. inversion E. now eapply Added_step. Qed.

Lemma keeps_request (P : Event -> Prop) {A} lat ev (answer : nat -> Reply A) :
  P ev -> keeps P (request lat ev answer).
Proof.
  intros H w r w' E. unfold request in E.
  destruct (answer (calls w)); inversion E; now eapply Added_step.
Qed.

Section Keeps.

Variable gh : Platform.
Variable P : Event -> Prop.
Variable budget : Z.
Hypothesis P_holds : forall ev, BudgetIs budget ev -> P ev.
Variables (workflowId : Z) (config : Config).

Ltac other_event := apply P_holds; intros b Hb; discriminate Hb.

Lemma keeps_getWorkflowRunIds : keeps P (getWorkflowRunIds gh workflowId config).
Proof.
  apply keeps_tryCatch.
  - apply keeps_bind; [apply keeps_request; other_event|].
    intros [status runs]. destruct (negb (status =? 200));
      [apply keeps_throw | apply keeps_ret].
  - intros e. apply keeps_bind; [apply keeps_record; other_event|].
    intros _. apply keeps_throw.
Qed.

Lemma keeps_getWorkflowRunJobSteps runId :
  keeps P (getWorkflowRunJobSteps gh runId config).
Proof.
  apply keeps_tryCatch.
  - apply keeps_bind; [apply keeps_request; other_event|].
    intros [status jobs]. destruct (negb (status =? 200));
      [apply keeps_throw | apply keeps_ret].
  - intros e. apply keeps_bind; [apply keeps_record; other_event|].
    intros _. apply keeps_throw.
Qed.

Lemma keeps_retryLoop {T} (retryFunc : M (list T)) fuel startTime :
  keeps P retryFunc ->
  forall elapsedTime, keeps P (retryLoop fuel retryFunc budget startTime elapsedTime).
Proof.
  intros Hf. induction fuel as [|fuel IH]; intros e; cbn [retryLoop].
  - apply keeps_noResult.
  - destruct (e <? budget); [|apply keeps_throw].
    apply keeps_bind; [apply keeps_Date_now|]. intros t.
    apply keeps_bind; [exact Hf|]. intros response.
    destruct (0 <? List.length response)%nat; [apply keeps_ret|].
    apply keeps_bind; [apply keeps_sleep; other_event|]. intros _. apply IH.
Qed.

Lemma keeps_retryOrDie {T} (retryFunc : M (list T)) fuel :
  keeps P retryFunc -> keeps P (retryOrDie fuel retryFunc budget).
Proof.
  intros Hf. apply keeps_bind.
  - apply keeps_record, P_holds. intros b Hb. now inversion Hb.
  - intros _. apply keeps_bind; [apply keeps_Date_now|]. intros t.
    now apply keeps_retryLoop.
Qed.

Lemma keeps_forSteps idRegex runId steps : keeps P (forSteps idRegex runId steps).
Proof.
  induction steps as [|step steps IH]; cbn [forSteps]; [apply keeps_ret|].
  destruct (RegExp_test idRegex step); [|exact IH].
  apply keeps_bind; [apply keeps_record; other_event|]. intros _. apply keeps_ret.
Qed.

Lemma keeps_forRunIds idRegex ids : keeps P (forRunIds gh idRegex config ids).
Proof.
  induction ids as [|runId ids IH]; cbn [forRunIds]; [apply keeps_ret|].
  apply keeps_bind.
  - apply keeps_tryCatch.
    + apply keeps_bind; [apply keeps_getWorkflowRunJobSteps|].
      intros steps. apply keeps_forSteps.
    + intros e. destruct (negb _); [apply keeps_throw | apply keeps_ret].
  - intros [|]; [apply keeps_ret | exact IH].
Qed.

Lemma keeps_newIdRegex : keeps P (newIdRegex config).
Proof.
  unfold newIdRegex. destruct (RegExp_new _); [apply keeps_ret | apply keeps_noResult].
Qed.

End Keeps.

(** ** The enumeration budget *)

Lemma fetchTimeout_min (timeoutMs : Z) :
  fetchTimeout timeoutMs = Z.min 60000 timeoutMs.
Proof.
  unfold fetchTimeout, WORKFLOW_FETCH_TIMEOUT_MS.
  destruct (60 * 1000 >? timeoutMs) eqn:E.
  - apply Z.gtb_lt in E. lia.
  - rewrite Z.gtb_ltb in E. apply Z.ltb_ge in E. lia.
Qed.

Section Budget.

Variable gh : Platform.
Variable P : Event -> Prop.
Variables (workflowId : Z) (config : Config) (timeoutMs : Z).
Hypothesis P_holds : forall ev, BudgetIs (fetchTimeout timeoutMs) ev -> P ev.

Lemma keeps_searchCycle fuel :
  keeps P (searchCycle gh fuel workflowId config timeoutMs).
Proof.
  unfold searchCycle. apply keeps_bind.
  - apply keeps_retryOrDie with (budget := fetchTimeout timeoutMs); [exact P_holds|].
    now apply keeps_getWorkflowRunIds with (budget := fetchTimeout timeoutMs).
  - intros ids. apply keeps_bind; [apply keeps_newIdRegex|]. intros idRegex.
    now apply keeps_forRunIds with (budget := fetchTimeout timeoutMs).
Qed.

Lemma keeps_searchLoop fuel startTime :
  forall elapsedTime,
    keeps P (searchLoop gh fuel workflowId config timeoutMs startTime elapsedTime).
Proof.
  induction fuel as [|fuel IH]; intros e; cbn [searchLoop].
  - apply keeps_noResult.
  - destruct (e <? timeoutMs); [|apply keeps_throw].
    apply keeps_bind; [apply keeps_Date_now|]. intros t.
    apply keeps_bind; [apply keeps_searchCycle|]. intros [|]; [apply keeps_ret|].
    apply keeps_bind; [|intros _; apply IH].
    apply keeps_sleep, P_holds. intros b Hb. discriminate Hb.
Qed.

End Budget.

Lemma keeps_giveUp (P : Event -> Prop) (error : Error) :
  (forall ev, (forall b, ev <> RetryOrDie b) -> P ev) -> keeps P (giveUp error).
Proof.
  intros H. unfold giveUp, core_error, core_warning, core_setFailed.
  repeat (apply keeps_bind; [apply keeps_record, H; intros b; discriminate | intros _]).
  apply keeps_record, H. intros b. discriminate.
Qed.

Lemma resolve_parsed (gh : Platform) fuel workflowId config seconds w :
  getNumberFromValue (workflowTimeoutSeconds config) = Ok seconds ->
  resolve gh fuel workflowId config w
  = searchLoop gh fuel workflowId config
      (orDefault seconds WORKFLOW_TIMEOUT_SECONDS * 1000) (now w) 0 w.
Proof.
  intros H. unfold resolve. rewrite H. unfold bind, Date_now, lift.
  now rewrite Z.sub_diag.
Qed.


Section ApiBudget.

Variable gh : Platform.
Variable DISTINCT_ID : string.
Variable P : Event -> Prop.
Variables (workflowId : Z) (config : Config) (timeoutMs : Z).
Hypothesis P_holds : forall ev, BudgetIs (fetchTimeout timeoutMs) ev -> P ev.

Ltac other_event := apply P_holds; intros b Hb; discriminate Hb.

Lemma keeps_getWorkflowRunUrl runId : keeps P (Api.getWorkflowRunUrl gh runId config).
Proof.
  apply keeps_tryCatch.
  - apply keeps_bind; [apply keeps_request; other_event|].
    intros [status url]. destruct (negb (status =? 200));
      [apply keeps_throw | apply keeps_ret].
  - intros e. apply keeps_bind; [apply keeps_record; other_event|].
    intros _. apply keeps_throw.
Qed.

Lemma keeps_api_forSteps idRegex id steps :
  keeps P (Api.forSteps gh idRegex id config steps).
Proof.
  induction steps as [|step steps IH]; cbn [Api.forSteps]; [apply keeps_ret|].
  destruct (RegExp_test idRegex step); [|exact IH].
  apply keeps_bind; [apply keeps_getWorkflowRunUrl|]. intros _.
  apply keeps_bind; [apply keeps_record; other_event|]. intros _. apply keeps_ret.
Qed.

Lemma keeps_api_forRunIds idRegex ids : keeps P (Api.forRunIds gh idRegex config ids).
Proof.
  induction ids as [|id ids IH]; cbn [Api.forRunIds]; [apply keeps_ret|].
  apply keeps_bind.
  - apply keeps_tryCatch.
    + apply keeps_bind.
      * now apply keeps_getWorkflowRunJobSteps with (budget := fetchTimeout timeoutMs).
      * intros steps. apply keeps_api_forSteps.
    + intros e. destruct (negb _); [apply keeps_throw | apply keeps_ret].
  - intros [|]; [apply keeps_ret | exact IH].
Qed.

Lemma keeps_api_searchCycle fuel :
  keeps P (Api.searchCycle gh DISTINCT_ID fuel workflowId config timeoutMs).
Proof.
  unfold Api.searchCycle. apply keeps_bind.
  - apply keeps_retryOrDie with (budget := fetchTimeout timeoutMs); [exact P_holds|].
    now apply keeps_getWorkflowRunIds with (budget := fetchTimeout timeoutMs).
  - intros ids. apply keeps_bind.
    + unfold Api.newIdRegex.
      destruct (RegExp_new DISTINCT_ID); [apply keeps_ret | apply keeps_noResult].
    + intros idRegex. apply keeps_api_forRunIds.
Qed.

Lemma keeps_api_searchLoop fuel startTime :
  forall elapsedTime,
    keeps P (Api.searchLoop gh DISTINCT_ID fuel workflowId config timeoutMs
               startTime elapsedTime).
Proof.
  induction fuel as [|fuel IH]; intros e; cbn [Api.searchLoop].
  - apply keeps_noResult.
  - destruct (e <? timeoutMs); [|apply keeps_throw].
    apply keeps_bind; [apply keeps_Date_now|]. intros t.
    apply keeps_bind; [apply keeps_api_searchCycle|]. intros [|]; [apply keeps_ret|].
    apply keeps_bind; [|intros _; apply IH].
    apply keeps_sleep, P_holds. intros b Hb. discriminate Hb.
Qed.

End ApiBudget.

Lemma api_resolve_parsed (gh : Platform) DISTINCT_ID fuel workflowId config seconds w :
  getNumberFromValue (workflowTimeoutSeconds config) = Ok seconds ->
  Api.resolve gh DISTINCT_ID fuel workflowId config w
  = Api.searchLoop gh DISTINCT_ID fuel workflowId config
      (orDefault seconds WORKFLOW_TIMEOUT_SECONDS * 1000) (now w) 0 w.
Proof.
  intros H. unfold Api.resolve. rewrite H. unfold bind, Date_now, lift.
  now rewrite Z.sub_diag.
Qed.

(** What the [catch] block of [applyWorkflowRunId] adds to a search loop
    that kept to one budget. *)
Lemma budget_kept_to_the_end (budget : Z) (loop : M unit) (w : World)
    (r : Outcome unit) (w' : World) :
  keeps (BudgetIs budget) loop ->
  tryCatch loop giveUp w = (r, w') ->
  Added (BudgetIs budget) w w'.
Proof.
  intros K E. unfold tryCatch in E.
  destruct (loop w) as [[[]|e|] w1] eqn:El; pose proof (K _ _ _ El) as K1.
  - now inversion E; subst.
  - eapply Added_trans; [exact K1|].
    eapply (keeps_giveUp _ e); [|exact E].
    intros ev Hev b Hb. now elim (Hev b).
  - now inversion E; subst.
Qed.

(** ** Inspecting the candidates *)

Lemma forSteps_no_match idRegex runId steps w :
  stepsMatch idRegex steps = false ->
  forSteps idRegex runId steps w = (Ok false, w).
Proof.
  unfold stepsMatch. induction steps as [|step steps IH]; cbn [forSteps existsb];
    intros H; [reflexivity|].
  apply orb_false_iff in H. destruct H as [H1 H2]. rewrite H1. now apply IH.
Qed.

Lemma forSteps_match idRegex runId steps w :
  stepsMatch idRegex steps = true ->
  forSteps idRegex runId steps w = (Ok true, noted (SetOutput "runId" runId) w).
Proof.
  unfold stepsMatch. induction steps as [|step steps IH]; cbn [forSteps existsb];
    intros H; [discriminate|].
  destruct (RegExp_test idRegex step); [reflexivity|]. now apply IH.
Qed.

Section Inspection.

Variable gh : Platform.
Variables (idRegex : RegExp) (config : Config).
Variables (runId : Z) (rest : list Z) (w : World).

Let asked := answered (latency gh) (ListJobsForWorkflowRun (jobsParams config runId)) w.

Lemma forRunIds_no_match jobs :
  listJobsForWorkflowRun gh (calls w) (jobsParams config runId) = Response 200 jobs ->
  stepsMatch idRegex (stepSet jobs) = false ->
  forRunIds gh idRegex config (runId :: rest) w = forRunIds gh idRegex config rest asked.
Proof.
  intros H Hm. cbn [forRunIds].
  erewrite bind_Ok
    by (apply tryCatch_Ok;
        erewrite bind_Ok by (apply getWorkflowRunJobSteps_200, H);
        now apply forSteps_no_match).
  reflexivity.
Qed.

Lemma forRunIds_match jobs :
  listJobsForWorkflowRun gh (calls w) (jobsParams config runId) = Response 200 jobs ->
  stepsMatch idRegex (stepSet jobs) = true ->
  forRunIds gh idRegex config (runId :: rest) w
  = (Ok true, noted (SetOutput "runId" runId) asked).
Proof.
  intros H Hm. cbn [forRunIds].
  erewrite bind_Ok
    by (apply tryCatch_Ok;
        erewrite bind_Ok by (apply getWorkflowRunJobSteps_200, H);
        now apply forSteps_match).
  reflexivity.
Qed.

Lemma forRunIds_Not_Found e :
  listJobsForWorkflowRun gh (calls w) (jobsParams config runId) = Rejected e ->
  message e = "Not Found" ->
  forRunIds gh idRegex config (runId :: rest) w
  = forRunIds gh idRegex config rest (noted (jobStepsFailure "Not Found") asked).
Proof.
  intros H Hm. cbn [forRunIds].
  erewrite bind_Ok
    by (erewrite tryCatch_Throw
          by (apply bind_Throw, getWorkflowRunJobSteps_Rejected, H);
        rewrite Hm; reflexivity).
  reflexivity.
Qed.

Lemma forRunIds_Rejected e :
  listJobsForWorkflowRun gh (calls w) (jobsParams config runId) = Rejected e ->
  message e <> "Not Found" ->
  forRunIds gh idRegex config (runId :: rest) w
  = (Throw e, noted (jobStepsFailure (message e)) asked).
Proof.
  intros H Hm. cbn [forRunIds].
  apply String.eqb_neq in Hm.
  erewrite bind_Throw
    by (erewrite tryCatch_Throw
          by (apply bind_Throw, getWorkflowRunJobSteps_Rejected, H);
        rewrite Hm; reflexivity).
  reflexivity.
Qed.

Lemma forRunIds_status status jobs :
  listJobsForWorkflowRun gh (calls w) (jobsParams config runId)
  = Response status jobs ->
  status <> 200 ->
  forRunIds gh idRegex config (runId :: rest) w
  = (Throw (unexpectedJobsStatus status),
     noted (jobStepsFailure (message (unexpectedJobsStatus status))) asked).
Proof.
  intros H Hs. cbn [forRunIds].
  erewrite bind_Throw
    by (erewrite tryCatch_Throw
          by (apply bind_Throw, (getWorkflowRunJobSteps_status _ _ _ _ _ _ H Hs));
        reflexivity).
  reflexivity.
Qed.

End Inspection.

Lemma forRunIds_skips gh idRegex config pre rest w w' :
  Skips gh idRegex config pre w w' ->
  forRunIds gh idRegex config (pre ++ rest) w = forRunIds gh idRegex config rest w'.
Proof.
  induction 1 as [w|runId ids w jobs w' H Hm _ IH|runId ids w e w' H Hm _ IH].
  - reflexivity.
  - simpl app. now rewrite (forRunIds_no_match _ _ _ _ _ _ _ H Hm).
  - simpl app. now rewrite (forRunIds_Not_Found _ _ _ _ _ _ _ H Hm).
Qed.


(** ** One search cycle and the loop around it *)

Section Loop.

Variable gh : Platform.
Variables (workflowId : Z) (config : Config) (timeoutMs startTime : Z).

Lemma searchCycle_enumeration_throws fuel w err w1 :
  retryOrDie fuel (getWorkflowRunIds gh workflowId config) (fetchTimeout timeoutMs) w
  = (Throw err, w1) ->
  searchCycle gh fuel workflowId config timeoutMs w = (Throw err, w1).
Proof. intros H. unfold searchCycle. now apply bind_Throw. Qed.

Lemma searchCycle_inspects fuel w ids w1 idRegex :
  retryOrDie fuel (getWorkflowRunIds gh workflowId config) (fetchTimeout timeoutMs) w
  = (Ok ids, w1) ->
  RegExp_new (commitId config) = Some idRegex ->
  searchCycle gh fuel workflowId config timeoutMs w
  = forRunIds gh idRegex config ids w1.
Proof.
  intros H Hre. unfold searchCycle. erewrite bind_Ok by exact H.
  unfold newIdRegex. rewrite Hre. reflexivity.
Qed.

Lemma searchLoop_expired fuel e w :
  timeoutMs <= e ->
  searchLoop gh (S fuel) workflowId config timeoutMs startTime e w
  = (Throw TimeoutExceeded, w).
Proof. intros H. cbn [searchLoop]. apply Z.ltb_ge in H. now rewrite H. Qed.

Lemma searchLoop_cycle fuel e w :
  e < timeoutMs ->
  searchLoop gh (S fuel) workflowId config timeoutMs startTime e w
  = match searchCycle gh fuel workflowId config timeoutMs w with
    | (Ok true, w1) => (Ok tt, w1)
    | (Ok false, w1) =>
        searchLoop gh fuel workflowId config timeoutMs startTime (now w - startTime)
          (slept WORKFLOW_JOB_STEPS_RETRY_MS w1)
    | (Throw err, w1) => (Throw err, w1)
    | (NoResult, w1) => (NoResult, w1)
    end.
Proof.
  intros H. cbn [searchLoop]. apply Z.ltb_lt in H. rewrite H.
  unfold bind at 1. unfold Date_now. unfold bind at 1.
  destruct (searchCycle gh fuel workflowId config timeoutMs w) as [[[|]|err|] w1];
    reflexivity.
Qed.

Lemma Cycles_searchLoop fuel e w fuel' e' w' :
  Cycles gh workflowId config timeoutMs startTime fuel e w fuel' e' w' ->
  searchLoop gh fuel workflowId config timeoutMs startTime e w
  = searchLoop gh fuel' workflowId config timeoutMs startTime e' w'.
Proof.
  induction 1 as [|fuel e w w1 fuel' e' w' He Hc _ IH]; [reflexivity|].
  now rewrite (searchLoop_cycle _ _ _ He), Hc.
Qed.

End Loop.

Lemma applyWorkflowRunId_Throw gh fuel workflowId config w err w1 :
  resolve gh fuel workflowId config w = (Throw err, w1) ->
  applyWorkflowRunId gh fuel workflowId config w = (Ok tt, givenUp err w1).
Proof.
  intros H. unfold applyWorkflowRunId. now rewrite (tryCatch_Throw _ _ _ _ _ H).
Qed.

Lemma applyWorkflowRunId_Ok gh fuel workflowId config w w1 :
  resolve gh fuel workflowId config w = (Ok tt, w1) ->
  applyWorkflowRunId gh fuel workflowId config w = (Ok tt, w1).
Proof. intros H. unfold applyWorkflowRunId. now apply tryCatch_Ok. Qed.

(** ** What a world shows of earlier ones *)

Lemma events_cons w w' t ev :
  trace w' = (t, ev) :: trace w -> events w' = (events w ++ [ev])%list.
Proof. unfold events. intros ->. reflexivity. Qed.

Lemma inspected_cons w w' t ev :
  trace w' = (t, ev) :: trace w ->
  inspected w'
  = (inspected w
     ++ match ev with ListJobsForWorkflowRun p => [lj_run_id p] | _ => [] end)%list.
Proof.
  intros H. unfold inspected. rewrite (events_cons _ _ _ _ H), flat_map_app.
  simpl. now rewrite app_nil_r.
Qed.

Lemma failures_cons w w' t ev :
  trace w' = (t, ev) :: trace w ->
  failures w' = (failures w ++ match ev with SetFailed m => [m] | _ => [] end)%list.
Proof.
  intros H. unfold failures. rewrite (events_cons _ _ _ _ H), flat_map_app.
  simpl. now rewrite app_nil_r.
Qed.

Lemma quiet_failures w w' : Added quietEvent w w' -> failures w' = failures w.
Proof.
  intros (rest & E & F). unfold failures, events.
  rewrite E, map_app, rev_app_distr, flat_map_app.
  enough (H : flat_map (fun ev => match ev with SetFailed m => [m] | _ => [] end)
                (rev (map snd rest)) = []) by (rewrite H; apply app_nil_r).
  clear E. induction F as [|[t ev] rest [_ Hf] _ IH]; [reflexivity|].
  simpl. rewrite flat_map_app, IH. simpl in Hf.
  destruct ev; try discriminate Hf; reflexivity.
Qed.


Section Skipping.

Variable gh : Platform.
Variables (idRegex : RegExp) (config : Config).

Lemma Skips_inspected pre w w' :
  Skips gh idRegex config pre w w' -> inspected w' = (inspected w ++ pre)%list.
Proof.
  induction 1 as [w|runId ids w jobs w' _ _ _ IH|runId ids w e w' _ _ _ IH].
  - now rewrite app_nil_r.
  - rewrite IH. erewrite inspected_cons by reflexivity.
    now rewrite <- app_assoc.
  - rewrite IH. erewrite inspected_cons by reflexivity.
    erewrite inspected_cons by reflexivity. simpl.
    now rewrite app_nil_r, <- app_assoc.
Qed.

Lemma Skips_calls pre w w' :
  Skips gh idRegex config pre w w' -> calls w' = (calls w + List.length pre)%nat.
Proof.
  induction 1 as [w|runId ids w jobs w' _ _ _ IH|runId ids w e w' _ _ _ IH];
    simpl in *; lia.
Qed.

Lemma Skips_quiet pre w w' :
  Skips gh idRegex config pre w w' -> Added quietEvent w w'.
Proof.
  induction 1 as [w|runId ids w jobs w' _ _ _ IH|runId ids w e w' _ _ _ IH].
  - apply Added_refl.
  - eapply Added_trans; [|exact IH]. eapply Added_step; [reflexivity|]. now split.
  - eapply Added_trans; [|exact IH].
    eapply Added_trans; eapply Added_step; try reflexivity; now split.
Qed.


(** When the request for each candidate, the [i]-th of which is the remote
    call number [calls w + i], is answered with status 200 and step names
    that do not match, or rejected with "Not Found", every candidate is
    skipped. *)
Lemma Skips_total ids :
  forall w,
    (forall i runId,
        nth_error ids i = Some runId ->
        match listJobsForWorkflowRun gh (calls w + i) (jobsParams config runId) with
        | Response status jobs =>
            status = 200 /\ stepsMatch idRegex (stepSet jobs) = false
        | Rejected e => message e = "Not Found"
        end) ->
    exists w', Skips gh idRegex config ids w w'.
Proof.
  induction ids as [|runId ids IH]; intros w H.
  - exists w. constructor.
  - pose proof (H 0%nat runId eq_refl) as Hr. rewrite Nat.add_0_r in Hr.
    destruct (listJobsForWorkflowRun gh (calls w) (jobsParams config runId))
      as [status jobs|e] eqn:E.
    + destruct Hr as [-> Hm].
      edestruct IH as [w' Hw'];
        [|exists w'; eapply Skips_no_match; eassumption].
      intros i r Hi. simpl. rewrite <- Nat.add_succ_r. now apply H.
    + edestruct IH as [w' Hw'];
        [|exists w'; eapply Skips_Not_Found; eassumption].
      intros i r Hi. simpl. rewrite <- Nat.add_succ_r. now apply H.
Qed.

End Skipping.

(** ** Running out of time *)



Section NoMatch.

Variable gh : Platform.
Variables (workflowId : Z) (config : Config) (idRegex : RegExp).

Hypothesis latency_nonneg : forall n, 0 <= latency gh n.
Hypothesis runs_listed :
  forall n p, exists runs, listWorkflowRuns gh n p = Response 200 runs.
Hypothesis marker_parses : RegExp_new (commitId config) = Some idRegex.
Hypothesis nothing_matches :
  forall n p,
    match listJobsForWorkflowRun gh n p with
    | Response status jobs => status = 200 /\ stepsMatch idRegex (stepSet jobs) = false
    | Rejected e => message e = "Not Found"
    end.







End NoMatch.

(** ** The main task *)

Lemma applyWorkflowRunId_catches gh fuel workflowId config w e :
  fst (applyWorkflowRunId gh fuel workflowId config w) <> Throw e.
Proof.
  unfold applyWorkflowRunId, tryCatch.
  destruct (resolve gh fuel workflowId config w) as [[[]|err|] w1]; discriminate.
Qed.

(** * The claims of the specification *)

(** ** Resolving to the run that carries the marker *)

(** C1, as amended.  The search loop has reached one of its cycles, the
    first or a later one, and the enumeration of that cycle returns the run
    ids [pre ++ r :: post]; each has a step set, the one of [r] matches the
    marker and no other does.  Then, wherever [r] stands in the sequence,
    [applyWorkflowRunId] resolves to [r], which it emits as the output named
    [runId]; the candidates are inspected in the order of the response, [r]
    last, and setting the output is the last thing that happens: no
    candidate after [r] is inspected, and the operation is not marked
    failed. *)
Theorem resolves_to_the_matching_run (gh : Platform) (workflowId : Z)
    (config : Config) (seconds : option Z) (idRegex : RegExp)
    (jobsOf : Z -> list Job) (pre : list Z) (r : Z) (post : list Z)
    (fuel0 fuel : nat) (e : Z) (w wk w1 : World) :
  getNumberFromValue (workflowTimeoutSeconds config) = Ok seconds ->
  let timeoutMs := orDefault seconds WORKFLOW_TIMEOUT_SECONDS * 1000 in
  RegExp_new (commitId config) = Some idRegex ->
  Cycles gh workflowId config timeoutMs (now w) fuel0 0 w (S fuel) e wk ->
  e < timeoutMs ->
  retryOrDie fuel (getWorkflowRunIds gh workflowId config) (fetchTimeout timeoutMs) wk
  = (Ok (pre ++ r :: post)%list, w1) ->
  (forall i runId,
      nth_error (pre ++ r :: post) i = Some runId ->
      listJobsForWorkflowRun gh (calls w1 + i) (jobsParams config runId)
      = Response 200 (jobsOf runId)) ->
  stepsMatch idRegex (stepSet (jobsOf r)) = true ->
  (forall runId,
      In runId (pre ++ r :: post) ->
      stepsMatch idRegex (stepSet (jobsOf runId)) = true -> runId = r) ->
  ~ In r pre ->
  exists w',
    applyWorkflowRunId gh fuel0 workflowId config w = (Ok tt, w')
    /\ output "runId" w' = Some r
    /\ inspected w' = (inspected w1 ++ pre ++ [r])%list
    /\ (exists t earlier, trace w' = (t, SetOutput "runId" r) :: earlier)
    /\ failures w' = failures w1
    /\ calls w' = (calls w1 + List.length pre + 1)%nat.
Proof.
  intros Hsec timeoutMs Hre Hcycles He Hids Hjobs Hr Huniq Hfirst.
  destruct (Skips_total gh idRegex config pre w1) as [w2 Hskip].
  { intros i runId Hi.
    assert (Hin : In runId pre) by (eapply nth_error_In; exact Hi).
    rewrite Hjobs
      by (rewrite nth_error_app1; [exact Hi | apply nth_error_Some; congruence]).
    split; [reflexivity|].
    destruct (stepsMatch idRegex (stepSet (jobsOf runId))) eqn:Em; [|reflexivity].
    exfalso. apply Hfirst.
    rewrite <- (Huniq runId) by (try apply in_or_app; auto). exact Hin. }
  eexists. split.
  - apply applyWorkflowRunId_Ok.
    rewrite (resolve_parsed _ _ _ _ _ _ Hsec). fold timeoutMs.
    rewrite (Cycles_searchLoop _ _ _ _ _ _ _ _ _ _ _ Hcycles).
    rewrite searchLoop_cycle by exact He.
    rewrite (searchCycle_inspects _ _ _ _ _ _ _ _ _ Hids Hre).
    rewrite (forRunIds_skips _ _ _ _ _ _ _ Hskip).
    rewrite (forRunIds_match gh idRegex config r post w2 (jobsOf r));
      [reflexivity | | exact Hr].
    rewrite (Skips_calls _ _ _ _ _ _ Hskip). apply Hjobs.
    rewrite nth_error_app2 by lia. now rewrite Nat.sub_diag.
  - split; [reflexivity|]. split.
    + erewrite inspected_cons by reflexivity. erewrite inspected_cons by reflexivity.
      rewrite (Skips_inspected _ _ _ _ _ _ Hskip).
      simpl. now rewrite !app_nil_r, <- app_assoc.
    + split; [eexists _, _; reflexivity|]. split.
      * erewrite failures_cons by reflexivity. erewrite failures_cons by reflexivity.
        rewrite (quiet_failures _ _ (Skips_quiet _ _ _ _ _ _ Hskip)).
        simpl. now rewrite !app_nil_r.
      * simpl. rewrite (Skips_calls _ _ _ _ _ _ Hskip). lia.
Qed.

(** The witness of C1: the scenario of the specification, with the matching
    run second of two, in the first cycle; and a platform on which run 102
    carries the marker only from the third cycle on. *)
Lemma resolves_to_the_matching_run_witness :
  (getNumberFromValue (workflowTimeoutSeconds Demo.config) = Ok None
   /\ fst (retryOrDie 1 (getWorkflowRunIds Demo.gh 7 Demo.config)
             (fetchTimeout 300000) w0) = Ok ([101] ++ 102 :: [])%list
   /\ ~ In 102 [101])
  /\ (exists w',
        applyWorkflowRunId Demo.gh 2 7 Demo.config w0 = (Ok tt, w')
        /\ output "runId" w' = Some 102
        /\ inspected w' = [101; 102]
        /\ (exists t earlier, trace w' = (t, SetOutput "runId" 102) :: earlier)
        /\ failures w' = []
        /\ calls w' = 3%nat)
  /\ (exists w',
        applyWorkflowRunId Demo.late 4 7 Demo.config w0 = (Ok tt, w')
        /\ output "runId" w' = Some 102
        /\ inspected w' = [101; 102; 101; 102; 101; 102]
        /\ (exists t earlier, trace w' = (t, SetOutput "runId" 102) :: earlier)
        /\ failures w' = []
        /\ calls w' = 9%nat).
Proof.
  assert (Hfirst : ~ In 102 [101]) by (intros [H|[]]; discriminate H).
  assert (Huniq : forall runId,
             In runId [101; 102] ->
             stepsMatch (map Lit (Str.chars "M1"))
               (stepSet (if runId =? 102
                         then [Demo.job ["checkout"; "echo M1 done"]]
                         else [Demo.job ["checkout"; "build"]])) = true ->
             runId = 102).
  { intros runId [<-|[<-|[]]]; [discriminate | reflexivity]. }
  split; [split; [reflexivity | split; [reflexivity | exact Hfirst]]|]. split.
  - apply (resolves_to_the_matching_run Demo.gh 7 Demo.config None
             (map Lit (Str.chars "M1"))
             (fun runId => if runId =? 102
                           then [Demo.job ["checkout"; "echo M1 done"]]
                           else [Demo.job ["checkout"; "build"]])
             [101] 102 [] 2 1 0 w0 w0
             (snd (retryOrDie 1 (getWorkflowRunIds Demo.gh 7 Demo.config)
                     (fetchTimeout 300000) w0))).
    + reflexivity.
    + reflexivity.
    + apply Cycles_none.
    + reflexivity.
    + reflexivity.
    + intros i runId _. simpl. destruct (runId =? 102); reflexivity.
    + reflexivity.
    + exact Huniq.
    + exact Hfirst.
  - set (wk := slept 5000 (snd (searchCycle Demo.late 2 7 Demo.config 300000
                 (slept 5000 (snd (searchCycle Demo.late 3 7 Demo.config 300000 w0)))))).
    apply (resolves_to_the_matching_run Demo.late 7 Demo.config None
             (map Lit (Str.chars "M1"))
             (fun runId => if runId =? 102
                           then [Demo.job ["checkout"; "echo M1 done"]]
                           else [Demo.job ["checkout"; "build"]])
             [101] 102 [] 4 1 5300 w0 wk
             (snd (retryOrDie 1 (getWorkflowRunIds Demo.late 7 Demo.config)
                     (fetchTimeout 300000) wk))).
    + reflexivity.
    + reflexivity.
    + eapply Cycles_more; [reflexivity | reflexivity |].
      eapply Cycles_more; [reflexivity | reflexivity |].
      apply Cycles_none.
    + reflexivity.
    + reflexivity.
    + intros [|[|i]] runId Hi; try (destruct i; discriminate Hi);
        injection Hi as <-; reflexivity.
    + reflexivity.
    + exact Huniq.
    + exact Hfirst.
Defined.

(** The claim C1 as the specification words it, with the run id emitted as
    the output [run_id], fails: in the scenario of the specification run 102
    is the one that carries the marker, and after [applyWorkflowRunId] the
    output [runId] holds it while no output [run_id] was set. *)
Lemma run_id_is_not_the_output_name :
  let w' := snd (applyWorkflowRunId Demo.gh 2 7 Demo.config w0) in
  fst (applyWorkflowRunId Demo.gh 2 7 Demo.config w0) = Ok tt
  /\ inspected w' = [101; 102]
  /\ output "runId" w' = Some 102
  /\ output "run_id" w' = None.
Proof. cbv zeta. repeat split; reflexivity. Qed.

(** ** The enumeration budget *)

(** C2, as amended.  Every budget [applyWorkflowRunId] hands to
    [retryOrDie], in whichever search cycle and however much time has
    elapsed, is the smaller of 60 seconds and the overall timeout; this holds
    of the [applyWorkflowRunId] of [src/dispatch.ts] and of the one of
    [src/api.ts]. *)
Theorem enumeration_budget (gh : Platform) (fuel : nat) (workflowId : Z)
    (config : Config) (seconds : option Z) (w : World) :
  getNumberFromValue (workflowTimeoutSeconds config) = Ok seconds ->
  let budget := Z.min (60 * 1000) (orDefault seconds WORKFLOW_TIMEOUT_SECONDS * 1000) in
  (forall r w',
      applyWorkflowRunId gh fuel workflowId config w = (r, w') ->
      exists rest,
        trace w' = (rest ++ trace w)%list
        /\ forall t b, In (t, RetryOrDie b) rest -> b = budget)
  /\ (forall DISTINCT_ID r w',
        Api.applyWorkflowRunId gh DISTINCT_ID fuel workflowId config w = (r, w') ->
        exists rest,
          trace w' = (rest ++ trace w)%list
          /\ forall t b, In (t, RetryOrDie b) rest -> b = budget).
Proof.
  intros Hsec budget.
  set (timeoutMs := orDefault seconds WORKFLOW_TIMEOUT_SECONDS * 1000) in *.
  assert (Hread : forall w',
             Added (BudgetIs (fetchTimeout timeoutMs)) w w' ->
             exists rest,
               trace w' = (rest ++ trace w)%list
               /\ forall t b, In (t, RetryOrDie b) rest -> b = budget).
  { intros w' (rest & Etr & F). exists rest. split; [exact Etr|].
    intros t b Hin. rewrite Forall_forall in F. specialize (F _ Hin b eq_refl).
    subst budget. now rewrite F, fetchTimeout_min. }
  split.
  - intros r w' E. apply Hread.
    apply (budget_kept_to_the_end _ (resolve gh fuel workflowId config) w r w');
      [|exact E].
    intros w1 r1 w1' E1. rewrite (resolve_parsed _ _ _ _ _ _ Hsec) in E1.
    exact (keeps_searchLoop gh _ workflowId config timeoutMs
             (fun ev H => H) fuel (now w1) 0 _ _ _ E1).
  - intros DISTINCT_ID r w' E. apply Hread.
    apply (budget_kept_to_the_end _
             (Api.resolve gh DISTINCT_ID fuel workflowId config) w r w'); [|exact E].
    intros w1 r1 w1' E1. rewrite (api_resolve_parsed _ _ _ _ _ _ _ Hsec) in E1.
    exact (keeps_api_searchLoop gh DISTINCT_ID _ workflowId config timeoutMs
             (fun ev H => H) fuel (now w1) 0 _ _ _ E1).
Qed.

(** The witness of C2: the run of the demonstration platform that finds
    nothing in 10 seconds. *)
Lemma enumeration_budget_witness :
  getNumberFromValue (workflowTimeoutSeconds Demo.strayConfig) = Ok (Some 10)
  /\ exists rest,
       trace (snd (applyWorkflowRunId Demo.gh 9 7 Demo.strayConfig w0))
       = (rest ++ trace w0)%list
       /\ forall t b, In (t, RetryOrDie b) rest -> b = Z.min (60 * 1000) (10 * 1000).
Proof.
  split; [reflexivity|].
  destruct (enumeration_budget Demo.gh 9 7 Demo.strayConfig (Some 10) w0 eq_refl)
    as [H _].
  apply (H (fst (applyWorkflowRunId Demo.gh 9 7 Demo.strayConfig w0))).
  apply surjective_pairing.
Defined.

(** The claim C2 as the specification words it, with the budget the smaller
    of 60 seconds and what remains of the overall timeout, fails: in the run
    below, of overall timeout 10 s, the second cycle starts 5 s after the
    resolution and the third 10 s after it, and both enter [retryOrDie] with
    10 s, not with the remaining 5 s and 0 s. *)
Lemma budget_is_not_the_remainder :
  let w' := snd (applyWorkflowRunId Demo.gh 9 7 Demo.strayConfig w0) in
  let startTime := now w0 in
  let timeoutMs := 10 * 1000 in
  budgets w' = [(0, 10000); (5000, 10000); (10000, 10000)]
  /\ 10000 <> Z.min (60 * 1000) (timeoutMs - (5000 - startTime))
  /\ 10000 <> Z.min (60 * 1000) (timeoutMs - (10000 - startTime)).
Proof.
  cbv zeta. split; [reflexivity|]. split; discriminate.
Qed.

(** ** The retry envelope and its producer *)

(** C3, as amended.  The producer's invocations take time ([took], never
    negative).  If the producer resolves to an empty sequence on its first
    [N] invocations and to a non-empty one on the next, and the time that
    has passed when that next invocation starts, which is the time the first
    [N] invocations took plus [N] backoffs of 1 second, is less than
    [timeoutMs], then [retryOrDie] returns that non-empty sequence; for a
    producer whose invocations take no time that passed time is
    [N * 1000].  If the producer always resolves to an empty sequence,
    [retryOrDie] throws its timeout error, having slept 1 second after each
    of the [n] empty results; it gives up at the first check of the loop at
    which the elapsed time read at the start of the attempt before is
    [timeoutMs] or more, so that at least [timeoutMs] has passed. *)
Theorem retryOrDie_producer {T} (took : nat -> Z) (answers : nat -> list T)
    (timeoutMs : Z) (w : World) :
  (forall k, 0 <= took k) ->
  (forall N xs,
      xs <> [] ->
      (forall k, (k < N)%nat -> answers (calls w + k)%nat = []) ->
      answers (calls w + N)%nat = xs ->
      spent took (calls w) N < timeoutMs ->
      forall fuel, (N < fuel)%nat ->
      exists w',
        retryOrDie fuel (producer took answers) timeoutMs w = (Ok xs, w')
        /\ calls w' = S (calls w + N))
  /\ (forall N, (forall k, took k = 0) -> spent took (calls w) N = Z.of_nat N * 1000)
  /\ ((forall k, answers k = []) ->
      forall fuel, (Z.to_nat timeoutMs + 2 <= fuel)%nat ->
      exists n w',
        retryOrDie fuel (producer took answers) timeoutMs w
        = (Throw TimedOutFetching, w')
        /\ calls w' = (calls w + n)%nat
        /\ now w' = now w + spent took (calls w) n
        /\ timeoutMs <= now w' - now w
        /\ (exists rest,
              trace w' = (rest ++ (now w, RetryOrDie timeoutMs) :: trace w)%list
              /\ map snd rest = repeat (SetTimeout 1000) n)
        /\ match n with
           | O => timeoutMs <= 0
           | S m =>
               0 < timeoutMs
               /\ timeoutMs <= spent took (calls w) m
               /\ match m with
                  | O => True
                  | S m' => spent took (calls w) m' < timeoutMs
                  end
           end).
Proof.
  intros Htook. split; [|split].
  - intros N xs Hxs Hempty Hlast Htime fuel Hfuel. rewrite retryOrDie_enters.
    destruct (retryLoop_succeeds took answers Htook timeoutMs (now w) xs Hxs N fuel 0
                (noted (RetryOrDie timeoutMs) w)) as (w' & E & Hc & _);
      simpl; try assumption; try lia.
    exists w'. now split.
  - intros N H. now apply spent_instant.
  - intros Hempty fuel Hfuel. rewrite retryOrDie_enters.
    destruct (retryLoop_gives_up took answers Htook timeoutMs (now w) Hempty
                (Z.to_nat timeoutMs) fuel 0 (noted (RetryOrDie timeoutMs) w))
      as (n & w' & E & Hc & Hn & Htr & Hchk); simpl; try lia.
    exists n, w'. simpl in *. split; [exact E|]. split; [exact Hc|].
    split; [exact Hn|]. rewrite Z.sub_diag in Hchk. cbn [Z.add] in Hchk.
    split; [|split; [exact Htr | exact Hchk]].
    destruct n as [|m]; [simpl in Hn; lia|].
    destruct Hchk as (_ & H2 & _). rewrite spent_snoc in Hn.
    specialize (Htook (calls w + m)%nat). lia.
Qed.

(** The witness of C3: an instantaneous producer that is empty twice. *)
Lemma retryOrDie_producer_witness :
  (forall k : nat, 0 <= (fun _ : nat => 0) k)
  /\ exists w',
       retryOrDie 3 (producer (fun _ => 0) (fun n => if (n <? 2)%nat then [] else [42]))
         2500 w0 = (Ok [42], w')
       /\ calls w' = 3%nat.
Proof.
  split; [intros; lia|].
  destruct (retryOrDie_producer (fun _ => 0)
              (fun n => if (n <? 2)%nat then [] else [42]) 2500 w0
              (fun _ => Z.le_refl 0)) as [H _].
  apply (H 2%nat [42]).
  - discriminate.
  - intros [|[|k]] Hk; [reflexivity | reflexivity | lia].
  - reflexivity.
  - reflexivity.
  - lia.
Defined.

(** The claim C3 as the specification words it, with the time of the
    invocations left out of its condition, fails: the producer below is empty
    on its first two invocations and non-empty on the third, and two
    backoffs are 2000 ms, less than the 2500 ms of the timeout; each
    invocation takes 2000 ms, and [retryOrDie] throws its timeout error after
    the second. *)
Lemma retryOrDie_slow_producer :
  let took := fun _ : nat => 2000 in
  let answers := fun n : nat => if (n <? 2)%nat then [] else [42] in
  (forall k, (k < 2)%nat -> answers (calls w0 + k)%nat = [])
  /\ answers (calls w0 + 2)%nat = [42]
  /\ 2 * 1000 < 2500
  /\ forall fuel,
       retryOrDie (3 + fuel) (producer took answers) 2500 w0
       = (Throw TimedOutFetching,
          mkWorld 6000 2
            [(5000, SetTimeout 1000); (2000, SetTimeout 1000); (0, RetryOrDie 2500)]).
Proof.
  cbv zeta. split; [|split; [|split]].
  - intros [|[|k]] Hk; [reflexivity | reflexivity | lia].
  - reflexivity.
  - lia.
  - intros fuel. reflexivity.
Qed.

(** ** Running out of time *)




(** ** Failures while searching *)

(** C5.  While the candidates are inspected, a rejection with the message
    "Not Found" is swallowed: the loop goes on with the next candidate of the
    same cycle.  A rejection with another message, and a response whose
    status is not 200, make the loop over the candidates throw, with no
    further call; so does an error of the enumeration make [retryOrDie]
    throw.  An error thrown by the enumeration or by the inspection is
    thrown by the search cycle, and a cycle that throws, after however many
    cycles that found nothing, ends [applyWorkflowRunId]: the operation is
    marked failed with the message of that error and nothing else
    happens. *)
Theorem failures_while_searching (gh : Platform) (workflowId : Z) (config : Config) :
  (forall idRegex runId rest w e,
      listJobsForWorkflowRun gh (calls w) (jobsParams config runId) = Rejected e ->
      message e = "Not Found" ->
      forRunIds gh idRegex config (runId :: rest) w
      = forRunIds gh idRegex config rest
          (noted (jobStepsFailure "Not Found")
             (answered (latency gh)
                (ListJobsForWorkflowRun (jobsParams config runId)) w)))
  /\ (forall idRegex pre runId rest w w1 e,
        Skips gh idRegex config pre w w1 ->
        listJobsForWorkflowRun gh (calls w1) (jobsParams config runId) = Rejected e ->
        message e <> "Not Found" ->
        exists w2,
          forRunIds gh idRegex config (pre ++ runId :: rest) w = (Throw e, w2)
          /\ calls w2 = S (calls w1))
  /\ (forall idRegex pre runId rest w w1 status jobs,
        Skips gh idRegex config pre w w1 ->
        listJobsForWorkflowRun gh (calls w1) (jobsParams config runId)
        = Response status jobs ->
        status <> 200 ->
        exists w2,
          forRunIds gh idRegex config (pre ++ runId :: rest) w
          = (Throw (unexpectedJobsStatus status), w2)
          /\ calls w2 = S (calls w1))
  /\ (forall fuel budget startTime e w err w1,
        e < budget ->
        getWorkflowRunIds gh workflowId config w = (Throw err, w1) ->
        retryLoop (S fuel) (getWorkflowRunIds gh workflowId config) budget startTime e w
        = (Throw err, w1))
  /\ (forall fuel timeoutMs w err w1,
        retryOrDie fuel (getWorkflowRunIds gh workflowId config)
          (fetchTimeout timeoutMs) w = (Throw err, w1) ->
        searchCycle gh fuel workflowId config timeoutMs w = (Throw err, w1))
  /\ (forall fuel timeoutMs w ids w1 idRegex err w2,
        retryOrDie fuel (getWorkflowRunIds gh workflowId config)
          (fetchTimeout timeoutMs) w = (Ok ids, w1) ->
        RegExp_new (commitId config) = Some idRegex ->
        forRunIds gh idRegex config ids w1 = (Throw err, w2) ->
        searchCycle gh fuel workflowId config timeoutMs w = (Throw err, w2))
  /\ (forall seconds fuel0 w0 fuel e w err w1,
        getNumberFromValue (workflowTimeoutSeconds config) = Ok seconds ->
        Cycles gh workflowId config
          (orDefault seconds WORKFLOW_TIMEOUT_SECONDS * 1000) (now w0)
          fuel0 0 w0 (S fuel) e w ->
        e < orDefault seconds WORKFLOW_TIMEOUT_SECONDS * 1000 ->
        searchCycle gh fuel workflowId config
          (orDefault seconds WORKFLOW_TIMEOUT_SECONDS * 1000) w = (Throw err, w1) ->
        applyWorkflowRunId gh fuel0 workflowId config w0 = (Ok tt, givenUp err w1)
        /\ trace (givenUp err w1)
           = (now w1, SetFailed (message err))
             :: (now w1, CoreWarning "Does the token have the correct permissions?")
             :: (now w1, CoreError ("Failed to complete: " ++ message err))
             :: trace w1).
Proof.
  split; [|split; [|split; [|split; [|split; [|split]]]]].
  - intros. eapply forRunIds_Not_Found; eassumption.
  - intros idRegex pre runId rest w w1 e Hskip H Hm.
    rewrite (forRunIds_skips _ _ _ _ _ _ _ Hskip),
      (forRunIds_Rejected _ _ _ _ _ _ _ H Hm).
    eexists. split; reflexivity.
  - intros idRegex pre runId rest w w1 status jobs Hskip H Hs.
    rewrite (forRunIds_skips _ _ _ _ _ _ _ Hskip),
      (forRunIds_status _ _ _ _ _ _ _ _ H Hs).
    eexists. split; reflexivity.
  - intros fuel budget startTime e w err w1 He H.
    now rewrite (retryLoop_attempt _ _ _ _ _ _ He), H.
  - intros. now apply searchCycle_enumeration_throws.
  - intros fuel timeoutMs w ids w1 idRegex err w2 H Hre Hf.
    now rewrite (searchCycle_inspects _ _ _ _ _ _ _ _ _ H Hre).
  - intros seconds fuel0 w0 fuel e w err w1 Hsec Hcycles He Hc.
    split; [|reflexivity].
    apply applyWorkflowRunId_Throw.
    rewrite (resolve_parsed _ _ _ _ _ _ Hsec), (Cycles_searchLoop _ _ _ _ _ _ _ _ _ _ _ Hcycles).
    now rewrite (searchLoop_cycle _ _ _ _ _ _ _ _ He), Hc.
Qed.

(** The witness of C5: run 101 is rejected with "Not Found" and skipped,
    the request for run 102 fails with another message, and the operation is
    marked failed with it. *)
Lemma failures_while_searching_witness :
  (listJobsForWorkflowRun Demo.flaky 1 (jobsParams Demo.config 101)
   = Rejected (mkError "Not Found")
   /\ getNumberFromValue (workflowTimeoutSeconds Demo.config) = Ok None
   /\ 0 < orDefault None WORKFLOW_TIMEOUT_SECONDS * 1000)
  /\ inspected (snd (applyWorkflowRunId Demo.flaky 2 7 Demo.config w0)) = [101; 102]
  /\ failures (snd (applyWorkflowRunId Demo.flaky 2 7 Demo.config w0)) = ["Server Error"].
Proof.
  split; [split; [reflexivity | split; [reflexivity | reflexivity]]|].
  destruct (failures_while_searching Demo.flaky 7 Demo.config)
    as (_ & _ & _ & _ & _ & _ & H).
  destruct (H None 2%nat w0 1%nat 0 w0 (mkError "Server Error")
              (snd (searchCycle Demo.flaky 1 7 Demo.config 300000 w0)))
    as [E _].
  - reflexivity.
  - apply Cycles_none.
  - reflexivity.
  - reflexivity.
  - rewrite E. split; reflexivity.
Defined.

(** ** The run-listing query *)

(** C6. [getWorkflowRunIds] sends one run-listing query.  For a ref
    [refs/heads/<branch>] the query is scoped to [<branch>] with page size 5;
    for a ref of another shape no branch is derived and the query is unscoped
    with page size 10; a response whose status is not 200 makes the call
    throw (and status 200 makes it return the run ids in the order of the
    response). *)
Theorem getWorkflowRunIds_query (gh : Platform) (workflowId : Z) (config : Config)
    (w : World) :
  let query := listRunsParams workflowId config in
  (forall branch, branch <> "" -> ref config = "refs/heads/" ++ branch ->
     query = mkListRunsParams (owner config) (repo config) workflowId
               (Some branch) 5)
  /\ (Str.startsWith (ref config) "refs/heads/" = false ->
      getBranchName (ref config) = None
      /\ query = mkListRunsParams (owner config) (repo config) workflowId None 10)
  /\ (exists r w',
        getWorkflowRunIds gh workflowId config w = (r, w')
        /\ calls w' = S (calls w)
        /\ In (now w, ListWorkflowRuns query) (trace w'))
  /\ (forall status runs,
        listWorkflowRuns gh (calls w) query = Response status runs ->
        status <> 200 ->
        exists w', getWorkflowRunIds gh workflowId config w
                   = (Throw (unexpectedRunsStatus status), w'))
  /\ (forall runs,
        listWorkflowRuns gh (calls w) query = Response 200 runs ->
        exists w', getWorkflowRunIds gh workflowId config w
                   = (Ok (map run_id runs), w')).
Proof.
  cbv zeta. split; [|split; [|split; [|split]]].
  - intros branch Hb Href. unfold listRunsParams.
    rewrite Href, getBranchName_heads. simpl truthy.
    apply String.eqb_neq in Hb. now rewrite Hb.
  - intros H. unfold listRunsParams, getBranchName. now rewrite H.
  - apply getWorkflowRunIds_sends.
  - intros status runs E Hs. eexists.
    apply (getWorkflowRunIds_status _ _ _ _ _ _ E Hs).
  - intros runs E. eexists. apply getWorkflowRunIds_200, E.
Qed.

(** The witness of C6: the branch [main]. *)
Lemma getWorkflowRunIds_query_witness :
  ("main" <> "" /\ ref Demo.config = "refs/heads/" ++ "main")
  /\ listRunsParams 7 Demo.config = mkListRunsParams "owner" "repo" 7 (Some "main") 5.
Proof.
  assert (H : "main" <> "") by discriminate.
  split; [split; [exact H | reflexivity]|].
  destruct (getWorkflowRunIds_query Demo.gh 7 Demo.config w0) as [Hq _].
  apply (Hq "main" H). reflexivity.
Defined.

(** ** The marker test *)

(** C7. The test applied to a step name is a search for the marker as a
    pattern inside the name, not a comparison with the name: for a marker
    without syntax characters the pattern is built, its test on a step name
    says whether the name contains the marker, and a step name that contains
    the marker, whatever stands before and after it, makes [forSteps] set the
    output and return. *)
Theorem marker_test_is_search (config : Config) :
  regexSafe (commitId config) = true ->
  exists idRegex,
    (forall w, newIdRegex config w = (Ok idRegex, w))
    /\ (forall step, RegExp_test idRegex step = Str.includes step (commitId config))
    /\ (forall pre post, RegExp_test idRegex (pre ++ commitId config ++ post) = true)
    /\ (forall pre post runId steps w,
          forSteps idRegex runId ((pre ++ commitId config ++ post) :: steps) w
          = (Ok true, noted (SetOutput "runId" runId) w)).
Proof.
  intros Hsafe. exists (map Lit (Str.chars (commitId config))).
  assert (Htest : forall pre post,
             RegExp_test (map Lit (Str.chars (commitId config)))
               (pre ++ commitId config ++ post) = true).
  { intros. rewrite literal_test. apply includes_append. }
  split; [|split; [|split]].
  - intros w. unfold newIdRegex, RegExp_new.
    now rewrite (safe_parses _ Hsafe).
  - intros step. apply literal_test.
  - exact Htest.
  - intros. cbn [forSteps]. now rewrite Htest.
Qed.

(** The witness of C7: the marker [M1] inside a longer step name. *)
Lemma marker_test_is_search_witness :
  regexSafe (commitId Demo.config) = true
  /\ exists idRegex,
       (forall w, newIdRegex Demo.config w = (Ok idRegex, w))
       /\ (forall step,
             RegExp_test idRegex step = Str.includes step (commitId Demo.config))
       /\ (forall pre post,
             RegExp_test idRegex (pre ++ commitId Demo.config ++ post) = true)
       /\ (forall pre post runId steps w,
             forSteps idRegex runId ((pre ++ commitId Demo.config ++ post) :: steps) w
             = (Ok true, noted (SetOutput "runId" runId) w)).
Proof.
  split; [reflexivity|]. apply (marker_test_is_search Demo.config). reflexivity.
Defined.

(** ** The step names of a run *)



(** ** The disabled workflow *)

(** C9.  Whatever the [try] block of [run] throws, [run] completes.  When
    the message of the error ends with "a disabled workflow", all [run]
    does is log the warning that no action was taken: the operation is not
    marked failed; any other error marks it failed with its message.  In
    particular, when the workflow is found and the dispatch request is
    rejected with such a message, [run] ends after that second call with the
    warning, no failure and no output. *)
Theorem disabled_workflow_is_benign (gh : Platform) (fuel : nat) (env : Env)
    (w : World) :
  (forall e w1,
      task gh fuel env w = (Throw e, w1) ->
      (Str.endsWith (message e) "a disabled workflow" = true ->
       run gh fuel env w
       = (Ok tt, noted (CoreWarning "Workflow is disabled, no action was taken") w1))
      /\ (Str.endsWith (message e) "a disabled workflow" = false ->
          run gh fuel env w = (Ok tt, noted (SetFailed (message e)) w1)))
  /\ (forall commitId status workflows foundWorkflow e,
        decodeInputs env = Ok commitId ->
        listRepoWorkflows gh (calls w) (ownerOf env) (repoOf env)
        = Response status workflows ->
        find (selects (getInput env "workflow")) workflows = Some foundWorkflow ->
        createDispatch gh (S (calls w)) (ownerOf env) (repoOf env)
          (wf_id foundWorkflow) (refOf env) = Rejected e ->
        Str.endsWith (message e) "a disabled workflow" = true ->
        exists w',
          run gh fuel env w = (Ok tt, w')
          /\ events w'
             = (events w
                ++ [ListRepoWorkflows (ownerOf env) (repoOf env);
                    CreateDispatch (ownerOf env) (repoOf env)
                      (wf_id foundWorkflow) (refOf env);
                    CoreWarning "Workflow is disabled, no action was taken"])%list
          /\ failures w' = failures w
          /\ (forall name, output name w' = output name w)
          /\ calls w' = S (S (calls w))).
Proof.
  split.
  - intros e w1 E. unfold run. rewrite (tryCatch_Throw _ _ _ _ _ E). unfold onError.
    split; intros ->; reflexivity.
  - intros commitId status workflows foundWorkflow e Hdec Hlist Hfind Hdisp Hmsg.
    set (w1 := answered (latency gh) (ListRepoWorkflows (ownerOf env) (repoOf env)) w).
    set (w2 := answered (latency gh)
                 (CreateDispatch (ownerOf env) (repoOf env) (wf_id foundWorkflow)
                    (refOf env)) w1).
    assert (E : task gh fuel env w = (Throw e, w2)).
    { unfold task. rewrite Hdec. unfold lift at 1.
      erewrite bind_Ok by reflexivity.
      erewrite bind_Ok by (apply request_Response, Hlist).
      cbn [snd]. rewrite Hfind.
      apply bind_Throw. apply request_Rejected. exact Hdisp. }
    eexists. split.
    + unfold run. rewrite (tryCatch_Throw _ _ _ _ _ E). unfold onError.
      rewrite Hmsg. reflexivity.
    + split; [|split; [|split]].
      * erewrite events_cons by reflexivity. erewrite events_cons by reflexivity.
        erewrite events_cons by reflexivity. now rewrite <- !app_assoc.
      * erewrite failures_cons by reflexivity. erewrite failures_cons by reflexivity.
        erewrite failures_cons by reflexivity. simpl. now rewrite !app_nil_r.
      * intros name. reflexivity.
      * reflexivity.
Qed.

(** The witness of C9: the workflow [echo-2.yaml] is disabled. *)
Lemma disabled_workflow_is_benign_witness :
  (createDispatch Demo.disabled 1 "owner" "repo" 1854248 "refs/heads/main"
   = Rejected (mkError "Cannot trigger a 'workflow_dispatch' on a disabled workflow")
   /\ Str.endsWith "Cannot trigger a 'workflow_dispatch' on a disabled workflow"
        "a disabled workflow" = true)
  /\ exists w',
       run Demo.disabled 5 Demo.env w0 = (Ok tt, w')
       /\ events w'
          = (events w0
             ++ [ListRepoWorkflows "owner" "repo";
                 CreateDispatch "owner" "repo" 1854248 "refs/heads/main";
                 CoreWarning "Workflow is disabled, no action was taken"])%list
       /\ failures w' = failures w0
       /\ (forall name, output name w' = output name w0)
       /\ calls w' = S (S (calls w0)).
Proof.
  split; [split; reflexivity|].
  destruct (disabled_workflow_is_benign Demo.disabled 5 Demo.env w0) as [_ H].
  apply (H None 200
           [mkWorkflow 1854247 "Message Echo 1" ".github/workflows/echo-1.yaml";
            Demo.echo2]
           Demo.echo2
           (mkError "Cannot trigger a 'workflow_dispatch' on a disabled workflow"));
    reflexivity.
Defined.

(** ** The first check of the retry envelope *)

(** C10. With [timeoutMs <= 0], [retryOrDie] throws its timeout error at
    once: whatever the producer is, the world is the one at entry and no call
    was made.  With [timeoutMs > 0] the producer is invoked in the world at
    entry, and what [retryOrDie] does next follows from that first result; a
    producer that counts as a remote call has been called at least once when
    [retryOrDie] ends. *)
Theorem retryOrDie_first_check {T} (retryFunc : M (list T)) (timeoutMs : Z)
    (fuel : nat) (w : World) :
  let entered := noted (RetryOrDie timeoutMs) w in
  (timeoutMs <= 0 ->
     retryOrDie (S fuel) retryFunc timeoutMs w = (Throw TimedOutFetching, entered)
     /\ calls entered = calls w)
  /\ (0 < timeoutMs ->
      retryOrDie (S fuel) retryFunc timeoutMs w
      = match retryFunc entered with
        | (Ok response, w1) =>
            if (0 <? List.length response)%nat then (Ok response, w1)
            else retryLoop fuel retryFunc timeoutMs (now w) 0 (slept 1000 w1)
        | (Throw e, w1) => (Throw e, w1)
        | (NoResult, w1) => (NoResult, w1)
        end)
  /\ (0 < timeoutMs ->
      forall took (answers : nat -> list T) r w',
        retryOrDie (S fuel) (producer took answers) timeoutMs w = (r, w') ->
        (calls w < calls w')%nat).
Proof.
  cbv zeta. split; [|split].
  - intros H. split; [|reflexivity].
    rewrite retryOrDie_enters. now apply retryLoop_expired.
  - intros H. rewrite retryOrDie_enters, (retryLoop_attempt _ _ _ _ _ _ H).
    cbn [noted now]. now rewrite Z.sub_diag.
  - intros H took answers r w' E.
    rewrite retryOrDie_enters, (retryLoop_attempt _ _ _ _ _ _ H) in E.
    unfold producer at 1 in E.
    destruct (0 <? List.length _)%nat.
    + inversion E. simpl. lia.
    + apply producer_calls in E. simpl in E. lia.
Qed.

(** The witness of C10: a timeout of 0 and a timeout of 1 ms. *)
Lemma retryOrDie_first_check_witness :
  (0 <= 0 /\ 0 < 1)
  /\ retryOrDie 1 (producer (fun _ => 0) (fun _ => [7])) 0 w0
     = (Throw TimedOutFetching, noted (RetryOrDie 0) w0)
  /\ forall r w',
       retryOrDie 1 (producer (fun _ => 0) (fun _ => [7])) 1 w0 = (r, w') ->
       (calls w0 < calls w')%nat.
Proof.
  split; [lia|].
  destruct (retryOrDie_first_check (producer (fun _ => 0) (fun _ => [7])) 0 0 w0)
    as (H0 & _ & _).
  destruct (retryOrDie_first_check (producer (fun _ => 0) (fun _ => [7])) 1 0 w0)
    as (_ & _ & H1).
  split.
  - apply H0. lia.
  - intros r w'. apply H1. lia.
Defined.

(** ** The scenarios of the specification, evaluated *)

Example steps_of_two_jobs :
  Array_from (Set_new (allStepsOf [Demo.job ["checkout"; "build"];
                                   Demo.job ["checkout"; "test"; "build"]]))
  = ["checkout"; "build"; "test"].
Proof. reflexivity. Qed.

Example tag_ref_has_no_branch :
  getBranchName "refs/tags/v1.0" = None
  /\ getBranchName "refs/heads/main" = Some "main"
  /\ lr_per_page (listRunsParams 7 (mkConfig "t" "refs/tags/v1.0" "repo" "owner" "M1" ""))
     = 10.
Proof. repeat split; reflexivity. Qed.

Example pattern_is_not_a_substring_test :
  option_map (fun idRegex => RegExp_test idRegex "step 123") (RegExp_new "1.3")
  = Some true
  /\ Str.includes "step 123" "1.3" = false.
Proof. split; reflexivity. Qed.

Example ten_seconds_without_a_match :
  let w' := snd (applyWorkflowRunId Demo.gh 9 7 Demo.strayConfig w0) in
  failures w' = ["Timeout exceeded while attempting to get Run ID"]
  /\ output "runId" w' = None
  /\ now w' = 15000.
Proof. cbv zeta. repeat split; reflexivity. Qed.

Example timeout_defaults :
  getNumberFromValue "" = Ok None
  /\ getNumberFromValue "10" = Ok (Some 10)
  /\ getNumberFromValue "ten" = Throw (mkError "Unable to parse value: ten")
  /\ orDefault (Some 0) WORKFLOW_TIMEOUT_SECONDS = 300.
Proof. repeat split; reflexivity. Qed.

Example second_copy_sets_run_id :
  let w' := snd (Api.applyWorkflowRunId Demo.gh "M1" 2 7 Demo.config w0) in
  output "run_id" w' = Some 102
  /\ output "runId" w' = None
  /\ events w'
     = [RetryOrDie 60000;
        ListWorkflowRuns (mkListRunsParams "owner" "repo" 7 (Some "main") 5);
        ListJobsForWorkflowRun (mkListJobsParams "owner" "repo" 101 "latest");
        ListJobsForWorkflowRun (mkListJobsParams "owner" "repo" 102 "latest");
        GetWorkflowRun "owner" "repo" 102;
        SetOutput "run_id" 102].
Proof. cbv zeta. repeat split; reflexivity. Qed.
(** * Further properties of the code *)

(** ** What the search adds to the trace *)

Lemma outputs_cons w w' t ev :
  trace w' = (t, ev) :: trace w ->
  outputs w'
  = (outputs w ++ match ev with SetOutput n v => [(n, v)] | _ => [] end)%list.
Proof.
  intros E. unfold outputs. rewrite (events_cons _ _ _ _ E), flat_map_app.
  simpl. now rewrite app_nil_r.
Qed.

Lemma remoteCalls_cons w w' t ev :
  trace w' = (t, ev) :: trace w ->
  remoteCalls w' = (remoteCalls w ++ if isRemoteCall ev then [ev] else [])%list.
Proof.
  intros E. unfold remoteCalls. rewrite (events_cons _ _ _ _ E), filter_app.
  simpl. now destruct (isRemoteCall ev).
Qed.

Lemma searchEvent_quiet workflowId config ev :
  searchEvent workflowId config ev -> quietEvent ev.
Proof. destruct ev; simpl; intros H; try contradiction; now split. Qed.

Lemma Added_weaken (P Q : Event -> Prop) w w' :
  (forall ev, P ev -> Q ev) -> Added P w w' -> Added Q w w'.
Proof.
  intros HPQ (rest & E & HP). exists rest. split; [exact E|].
  eapply Forall_impl; [|exact HP]. intros tev. apply HPQ.
Qed.

Lemma Added_inspected P w w' :
  Added P w w' -> exists more, inspected w' = (inspected w ++ more)%list.
Proof.
  intros (rest & E & _). unfold inspected, events. rewrite E, map_app, rev_app_distr.
  rewrite flat_map_app. eexists. reflexivity.
Qed.

Lemma Added_outputs workflowId config w w' :
  Added (searchEvent workflowId config) w w' -> outputs w' = outputs w.
Proof.
  intros (rest & E & HP). unfold outputs, events.
  rewrite E, map_app, rev_app_distr, flat_map_app.
  rewrite <- (app_nil_r (flat_map _ (rev (map snd (trace w))))) at 2. f_equal.
  clear E. induction HP as [|[t ev] rest Hev _ IH]; [reflexivity|].
  simpl. rewrite flat_map_app, IH. simpl.
  destruct ev; simpl in Hev; try contradiction; reflexivity.
Qed.

Lemma Added_remoteCalls workflowId config w w' :
  Added (fun ev => searchEvent workflowId config ev \/ isRemoteCall ev = false) w w' ->
  exists more,
    remoteCalls w' = (remoteCalls w ++ more)%list
    /\ Forall (fun ev =>
                 ev = ListWorkflowRuns (listRunsParams workflowId config)
                 \/ exists runId, ev = ListJobsForWorkflowRun (jobsParams config runId))
         more.
Proof.
  intros (rest & E & HP). unfold remoteCalls, events.
  rewrite E, map_app, rev_app_distr, filter_app.
  eexists. split; [reflexivity|]. clear E.
  induction HP as [|[t ev] rest Hev _ IH]; [constructor|].
  simpl. rewrite filter_app. apply Forall_app. split; [exact IH|].
  simpl in Hev. destruct Hev as [Hev|Hev].
  - destruct ev; simpl in *; try contradiction; try (constructor; fail);
      (constructor; [|constructor]).
    + left. now f_equal.
    + right. exists (lj_run_id params). now f_equal.
  - simpl. rewrite Hev. constructor.
Qed.

Section Searching.

Variable gh : Platform.
Variables (workflowId : Z) (config : Config).

Let P := searchEvent workflowId config.

Lemma searching_getWorkflowRunIds : keeps P (getWorkflowRunIds gh workflowId config).
Proof.
  apply keeps_tryCatch.
  - apply keeps_bind; [apply keeps_request; reflexivity|]. intros [status runs].
    destruct (negb (status =? 200)); [apply keeps_throw | apply keeps_ret].
  - intros e. apply keeps_bind; [apply keeps_record; exact I|].
    intros _. apply keeps_throw.
Qed.

Lemma searching_getWorkflowRunJobSteps runId :
  keeps P (getWorkflowRunJobSteps gh runId config).
Proof.
  apply keeps_tryCatch.
  - apply keeps_bind; [apply keeps_request; reflexivity|]. intros [status jobs].
    destruct (negb (status =? 200)); [apply keeps_throw | apply keeps_ret].
  - intros e. apply keeps_bind; [apply keeps_record; exact I|].
    intros _. apply keeps_throw.
Qed.

Lemma searching_retryLoop fuel budget startTime :
  forall elapsedTime,
    keeps P (retryLoop fuel (getWorkflowRunIds gh workflowId config) budget
               startTime elapsedTime).
Proof.
  induction fuel as [|fuel IH]; intros e; simpl; [apply keeps_noResult|].
  destruct (e <? budget); [|apply keeps_throw].
  apply keeps_bind; [apply keeps_Date_now|]. intros t.
  apply keeps_bind; [apply searching_getWorkflowRunIds|]. intros response.
  destruct (0 <? List.length response)%nat; [apply keeps_ret|].
  apply keeps_bind; [apply keeps_sleep; now left | intros _; apply IH].
Qed.

Lemma searching_retryOrDie fuel budget :
  keeps P (retryOrDie fuel (getWorkflowRunIds gh workflowId config) budget).
Proof.
  apply keeps_bind; [apply keeps_record; exact I|]. intros _.
  apply keeps_bind; [apply keeps_Date_now|]. intros t. apply searching_retryLoop.
Qed.

Lemma Skips_searching idRegex pre w w' :
  Skips gh idRegex config pre w w' -> Added P w w'.
Proof.
  induction 1 as [w | runId ids w jobs w' _ _ _ IH | runId ids w e w' _ _ _ IH].
  - apply Added_refl.
  - eapply Added_trans; [|exact IH]. eapply Added_step; reflexivity.
  - eapply Added_trans; [|exact IH].
    apply (Added_trans P w
             (answered (latency gh)
                (ListJobsForWorkflowRun (jobsParams config runId)) w));
      [eapply Added_step; reflexivity|].
    eapply Added_step; [reflexivity | exact I].
Qed.

End Searching.

(** ** How the loop over the candidates can end *)

Lemma forRunIds_cases gh idRegex config ids :
  forall w r w',
    forRunIds gh idRegex config ids w = (r, w') ->
    match r with
    | Ok true =>
        exists pre runId post jobs w1,
          ids = (pre ++ runId :: post)%list
          /\ Skips gh idRegex config pre w w1
          /\ listJobsForWorkflowRun gh (calls w1) (jobsParams config runId)
             = Response 200 jobs
          /\ stepsMatch idRegex (stepSet jobs) = true
          /\ w' = noted (SetOutput "runId" runId)
                    (answered (latency gh)
                       (ListJobsForWorkflowRun (jobsParams config runId)) w1)
    | Ok false => Skips gh idRegex config ids w w'
    | Throw e =>
        exists pre runId post w1,
          ids = (pre ++ runId :: post)%list
          /\ Skips gh idRegex config pre w w1
          /\ message e <> "Not Found"
          /\ (listJobsForWorkflowRun gh (calls w1) (jobsParams config runId)
              = Rejected e
              \/ exists status jobs,
                   listJobsForWorkflowRun gh (calls w1) (jobsParams config runId)
                   = Response status jobs
                   /\ status <> 200 /\ e = unexpectedJobsStatus status)
          /\ w' = noted (jobStepsFailure (message e))
                    (answered (latency gh)
                       (ListJobsForWorkflowRun (jobsParams config runId)) w1)
    | NoResult => False
    end.
Proof.
  induction ids as [|runId rest IH]; intros w r w' H.
  - injection H as <- <-. constructor.
  - destruct (listJobsForWorkflowRun gh (calls w) (jobsParams config runId))
      as [status jobs|e] eqn:E.
    + destruct (Z.eq_dec status 200) as [->|Hs].
      * destruct (stepsMatch idRegex (stepSet jobs)) eqn:Em.
        -- rewrite (forRunIds_match gh idRegex config runId rest w jobs E Em) in H.
           injection H as <- <-.
           exists [], runId, rest, jobs, w.
           repeat (split; [first [reflexivity | constructor | assumption]|]).
           reflexivity.
        -- rewrite (forRunIds_no_match gh idRegex config runId rest w jobs E Em) in H.
           apply IH in H. destruct r as [[|]|err|].
           ++ destruct H as (pre & r0 & post & jobs0 & w1 & -> & Hsk & H).
              exists (runId :: pre), r0, post, jobs0, w1.
              split; [reflexivity|]. split; [|exact H].
              eapply Skips_no_match; eassumption.
           ++ eapply Skips_no_match; eassumption.
           ++ destruct H as (pre & r0 & post & w1 & -> & Hsk & H).
              exists (runId :: pre), r0, post, w1.
              split; [reflexivity|]. split; [|exact H].
              eapply Skips_no_match; eassumption.
           ++ exact H.
      * rewrite (forRunIds_status gh idRegex config runId rest w status jobs E Hs) in H.
        injection H as <- <-.
        exists [], runId, rest, w.
        split; [reflexivity|]. split; [constructor|]. split; [discriminate|].
        split; [|reflexivity]. right. exists status, jobs. now repeat split.
    + destruct (String.eqb (message e) "Not Found") eqn:En.
      * apply String.eqb_eq in En.
        rewrite (forRunIds_Not_Found gh idRegex config runId rest w e E En) in H.
        apply IH in H. destruct r as [[|]|err|].
        -- destruct H as (pre & r0 & post & jobs0 & w1 & -> & Hsk & H).
           exists (runId :: pre), r0, post, jobs0, w1.
           split; [reflexivity|]. split; [|exact H].
           eapply Skips_Not_Found; eassumption.
        -- eapply Skips_Not_Found; eassumption.
        -- destruct H as (pre & r0 & post & w1 & -> & Hsk & H).
           exists (runId :: pre), r0, post, w1.
           split; [reflexivity|]. split; [|exact H].
           eapply Skips_Not_Found; eassumption.
        -- exact H.
      * apply String.eqb_neq in En.
        rewrite (forRunIds_Rejected gh idRegex config runId rest w e E En) in H.
        injection H as <- <-.
        exists [], runId, rest, w.
        split; [reflexivity|]. split; [constructor|]. split; [exact En|].
        split; [now left | reflexivity].
Qed.

Lemma Found_later workflowId config runId w0 w w' :
  Added (searchEvent workflowId config) w0 w ->
  Found workflowId config runId w w' -> Found workflowId config runId w0 w'.
Proof.
  intros H0 (w1 & seen & Ha & Hi & ->).
  destruct (Added_inspected _ _ _ H0) as [more Hm].
  exists w1, (more ++ seen)%list. split; [eapply Added_trans; eassumption|].
  split; [|reflexivity]. rewrite Hi, Hm. now rewrite <- !app_assoc.
Qed.

Section Ending.

Variable gh : Platform.
Variables (workflowId : Z) (config : Config).

Let P := searchEvent workflowId config.

Lemma searching_forRunIds idRegex ids w r w' :
  forRunIds gh idRegex config ids w = (r, w') ->
  match r with
  | Ok true => exists runId, In runId ids /\ Found workflowId config runId w w'
  | _ => Added P w w'
  end.
Proof.
  intros H. apply forRunIds_cases in H. destruct r as [[|]|e|].
  - destruct H as (pre & runId & post & jobs & w1 & -> & Hsk & _ & _ & ->).
    exists runId. split; [apply in_elt|].
    eexists _, pre. split; [|split; [|reflexivity]].
    + eapply Added_trans; [eapply Skips_searching; exact Hsk|].
      eapply Added_step; reflexivity.
    + erewrite inspected_cons by reflexivity.
      now rewrite (Skips_inspected _ _ _ _ _ _ Hsk), <- app_assoc.
  - eapply Skips_searching; exact H.
  - destruct H as (pre & runId & post & w1 & -> & Hsk & _ & _ & ->).
    eapply Added_trans; [eapply Skips_searching; exact Hsk|].
    apply (Added_trans P w1
             (answered (latency gh)
                (ListJobsForWorkflowRun (jobsParams config runId)) w1));
      [eapply Added_step; reflexivity|].
    eapply Added_step; [reflexivity | exact I].
  - contradiction.
Qed.

Lemma searching_searchCycle fuel timeoutMs w r w' :
  searchCycle gh fuel workflowId config timeoutMs w = (r, w') ->
  match r with
  | Ok true => exists runId, Found workflowId config runId w w'
  | _ => Added P w w'
  end.
Proof.
  unfold searchCycle, bind.
  destruct (retryOrDie fuel (getWorkflowRunIds gh workflowId config)
              (fetchTimeout timeoutMs) w) as [[ids|e|] w1] eqn:E;
    pose proof (searching_retryOrDie gh workflowId config _ _ _ _ _ E) as Ha;
    try (intros H; injection H as <- <-; exact Ha).
  unfold newIdRegex. destruct (RegExp_new (commitId config)) as [idRegex|];
    [|intros H; injection H as <- <-; exact Ha].
  unfold ret at 1. intros H. apply searching_forRunIds in H.
  destruct r as [[|]|e|]; try (eapply Added_trans; eassumption).
  destruct H as (runId & _ & H). exists runId. eapply Found_later; eassumption.
Qed.

Lemma searching_searchLoop timeoutMs startTime fuel :
  forall e w r w',
    searchLoop gh fuel workflowId config timeoutMs startTime e w = (r, w') ->
    match r with
    | Ok _ => exists runId, Found workflowId config runId w w'
    | _ => Added P w w'
    end.
Proof.
  induction fuel as [|fuel IH]; intros e w r w' H.
  - injection H as <- <-. apply Added_refl.
  - destruct (Z.lt_ge_cases e timeoutMs) as [Hlt|Hge].
    + rewrite searchLoop_cycle in H by exact Hlt.
      destruct (searchCycle gh fuel workflowId config timeoutMs w)
        as [[[|]|err|] w1] eqn:E; apply searching_searchCycle in E.
      * injection H as <- <-. exact E.
      * apply IH in H.
        assert (Hs : Added P w (slept WORKFLOW_JOB_STEPS_RETRY_MS w1)).
        { eapply Added_trans; [exact E|]. eapply Added_step; [reflexivity|].
          now right. }
        destruct r as [u|err|]; try (eapply Added_trans; eassumption).
        destruct H as (runId & H). exists runId. eapply Found_later; eassumption.
      * injection H as <- <-. exact E.
      * injection H as <- <-. exact E.
    + rewrite searchLoop_expired in H by exact Hge.
      injection H as <- <-. apply Added_refl.
Qed.

Lemma applyWorkflowRunId_ends fuel w r w' :
  applyWorkflowRunId gh fuel workflowId config w = (r, w') ->
  match r with
  | Ok _ =>
      (exists runId, Found workflowId config runId w w')
      \/ (exists e, GaveUp workflowId config e w w')
  | Throw _ => False
  | NoResult => Added P w w'
  end.
Proof.
  unfold applyWorkflowRunId, tryCatch.
  destruct (resolve gh fuel workflowId config w) as [[u|e|] w1] eqn:E; intros H.
  - injection H as <- <-. left.
    unfold resolve, bind, Date_now, lift in E.
    destruct (getNumberFromValue (workflowTimeoutSeconds config)); try discriminate E.
    apply searching_searchLoop in E. exact E.
  - assert (Ha : Added P w w1).
    { unfold resolve, bind, Date_now, lift in E.
      destruct (getNumberFromValue (workflowTimeoutSeconds config)).
      - apply searching_searchLoop in E. exact E.
      - injection E as _ <-. apply Added_refl.
      - discriminate E. }
    injection H as <- <-. right. exists e, w1. split; [exact Ha | reflexivity].
  - injection H as <- <-.
    unfold resolve, bind, Date_now, lift in E.
    destruct (getNumberFromValue (workflowTimeoutSeconds config)).
    + apply searching_searchLoop in E. exact E.
    + discriminate E.
    + injection E as <-. apply Added_refl.
Qed.

Lemma applyWorkflowRunId_adds fuel w :
  Added (fun ev => P ev \/ isRemoteCall ev = false) w
    (snd (applyWorkflowRunId gh fuel workflowId config w)).
Proof.
  assert (HP : forall w1 w2,
             Added P w1 w2 ->
             Added (fun ev => P ev \/ isRemoteCall ev = false) w1 w2)
    by (intros w1 w2; apply Added_weaken; now left).
  destruct (applyWorkflowRunId gh fuel workflowId config w) as [r w'] eqn:E.
  apply applyWorkflowRunId_ends in E. simpl.
  destruct r as [u|e|]; [|contradiction|exact (HP _ _ E)].
  destruct E as [(runId & w1 & seen & Ha & _ & ->)|(e & w1 & Ha & ->)].
  - eapply Added_trans; [exact (HP _ _ Ha)|].
    eapply Added_step; [reflexivity | now right].
  - eapply Added_trans; [exact (HP _ _ Ha)|]. unfold givenUp.
    repeat (eapply Added_trans; [|eapply Added_step; [reflexivity | now right]]).
    apply Added_refl.
Qed.

End Ending.

(** X1.  The run that a search cycle identifies carries the marker.  Whenever a
    search cycle of [applyWorkflowRunId] ends by returning from inside its
    [for] loops, the enumeration of this cycle had returned run ids
    [pre ++ runId :: post]; the candidates [pre] were inspected in this
    order and passed over, each because none of its step names passed the
    marker test or because the request was rejected with "Not Found"; the
    request for the jobs of [runId] was answered with the status 200 and a
    step set that passes the marker test; and the last thing that happened
    is that the output [runId] was set to [runId], so that no candidate of
    [post] was inspected. *)
Theorem identified_run_carries_the_marker (gh : Platform) (fuel : nat)
    (workflowId : Z) (config : Config) (timeoutMs : Z) (w w' : World) :
  searchCycle gh fuel workflowId config timeoutMs w = (Ok true, w') ->
  exists idRegex w1 pre runId post jobs w2,
    RegExp_new (commitId config) = Some idRegex
    /\ retryOrDie fuel (getWorkflowRunIds gh workflowId config)
         (fetchTimeout timeoutMs) w
       = (Ok (pre ++ runId :: post)%list, w1)
    /\ Skips gh idRegex config pre w1 w2
    /\ listJobsForWorkflowRun gh (calls w2) (jobsParams config runId)
       = Response 200 jobs
    /\ stepsMatch idRegex (stepSet jobs) = true
    /\ w' = noted (SetOutput "runId" runId)
              (answered (latency gh)
                 (ListJobsForWorkflowRun (jobsParams config runId)) w2)
    /\ output "runId" w' = Some runId
    /\ inspected w' = (inspected w1 ++ pre ++ [runId])%list.
Proof.
  unfold searchCycle, bind.
  destruct (retryOrDie fuel (getWorkflowRunIds gh workflowId config)
              (fetchTimeout timeoutMs) w) as [[ids|e|] w1] eqn:E;
    try discriminate.
  unfold newIdRegex. destruct (RegExp_new (commitId config)) as [idRegex|];
    [|discriminate].
  unfold ret at 1. intros H. apply forRunIds_cases in H.
  destruct H as (pre & runId & post & jobs & w2 & -> & Hsk & Hj & Hm & ->).
  exists idRegex, w1, pre, runId, post, jobs, w2.
  repeat (split; [first [reflexivity | assumption]|]).
  erewrite inspected_cons by reflexivity. erewrite inspected_cons by reflexivity.
  rewrite (Skips_inspected _ _ _ _ _ _ Hsk). simpl.
  now rewrite !app_nil_r, <- app_assoc.
Qed.

(** The scenario of the specification: the cycle identifies run 102, after
    passing over run 101. *)
Lemma identified_run_carries_the_marker_witness :
  let w' := snd (searchCycle Demo.gh 1 7 Demo.config 300000 w0) in
  exists idRegex w1 pre runId post jobs w2,
    RegExp_new (commitId Demo.config) = Some idRegex
    /\ retryOrDie 1 (getWorkflowRunIds Demo.gh 7 Demo.config)
         (fetchTimeout 300000) w0
       = (Ok (pre ++ runId :: post)%list, w1)
    /\ Skips Demo.gh idRegex Demo.config pre w1 w2
    /\ listJobsForWorkflowRun Demo.gh (calls w2) (jobsParams Demo.config runId)
       = Response 200 jobs
    /\ stepsMatch idRegex (stepSet jobs) = true
    /\ w' = noted (SetOutput "runId" runId)
              (answered (latency Demo.gh)
                 (ListJobsForWorkflowRun (jobsParams Demo.config runId)) w2)
    /\ output "runId" w' = Some runId
    /\ inspected w' = (inspected w1 ++ pre ++ [runId])%list.
Proof.
  exact (identified_run_carries_the_marker Demo.gh 1 7 Demo.config 300000 w0 _
           eq_refl).
Defined.

(** X2.  [applyWorkflowRunId] ends in exactly one of two ways.  Whenever it
    returns, either it has set the output [runId] once, to the run whose
    jobs it requested last, and has not marked the operation failed; or it
    has marked the operation failed once, as the last thing it did, and has
    set no output.  It never sets an output other than [runId], and never
    both sets the output and marks the operation failed. *)
Theorem resolved_or_failed (gh : Platform) (fuel : nat) (workflowId : Z)
    (config : Config) (w w' : World) :
  applyWorkflowRunId gh fuel workflowId config w = (Ok tt, w') ->
  (exists runId seen,
      outputs w' = (outputs w ++ [("runId", runId)])%list
      /\ failures w' = failures w
      /\ inspected w' = (inspected w ++ seen ++ [runId])%list
      /\ exists t earlier, trace w' = (t, SetOutput "runId" runId) :: earlier)
  \/ (exists msg,
        outputs w' = outputs w
        /\ failures w' = (failures w ++ [msg])%list
        /\ exists t earlier, trace w' = (t, SetFailed msg) :: earlier).
Proof.
  intros H. apply applyWorkflowRunId_ends in H.
  destruct H as [(runId & w1 & seen & Ha & Hi & ->)|(e & w1 & Ha & ->)].
  - left. exists runId, seen. split; [|split; [|split]].
    + erewrite outputs_cons by reflexivity. now rewrite (Added_outputs _ _ _ _ Ha).
    + erewrite failures_cons by reflexivity. simpl. rewrite app_nil_r.
      apply quiet_failures.
      eapply Added_weaken; [apply searchEvent_quiet | exact Ha].
    + erewrite inspected_cons by reflexivity. simpl. now rewrite app_nil_r.
    + eexists _, _. reflexivity.
  - right. exists (message e). split; [|split].
    + unfold givenUp. do 3 (erewrite outputs_cons by reflexivity). simpl.
      rewrite !app_nil_r. exact (Added_outputs _ _ _ _ Ha).
    + unfold givenUp. do 3 (erewrite failures_cons by reflexivity). simpl.
      rewrite !app_nil_r. f_equal. apply quiet_failures.
      eapply Added_weaken; [apply searchEvent_quiet | exact Ha].
    + eexists _, _. reflexivity.
Qed.

(** On the platform where the request for run 102 fails, the operation is
    marked failed and no output is set. *)
Lemma resolved_or_failed_witness :
  let w' := snd (applyWorkflowRunId Demo.flaky 2 7 Demo.config w0) in
  (exists runId seen,
      outputs w' = (outputs w0 ++ [("runId", runId)])%list
      /\ failures w' = failures w0
      /\ inspected w' = (inspected w0 ++ seen ++ [runId])%list
      /\ exists t earlier, trace w' = (t, SetOutput "runId" runId) :: earlier)
  \/ (exists msg,
        outputs w' = outputs w0
        /\ failures w' = (failures w0 ++ [msg])%list
        /\ exists t earlier, trace w' = (t, SetFailed msg) :: earlier).
Proof.
  apply (resolved_or_failed Demo.flaky 2 7 Demo.config w0). reflexivity.
Defined.

(** X3.  The search only reads.  Whatever the platform answers and however
    [applyWorkflowRunId] ends, the remote calls it makes are the run-listing
    call for [workflowId], with the query of [getWorkflowRunIds], and
    job-listing calls with the filter [latest] in the repository of
    [config]: it dispatches nothing and fetches no other resource. *)
Theorem the_search_only_lists (gh : Platform) (fuel : nat) (workflowId : Z)
    (config : Config) (w : World) :
  exists more,
    remoteCalls (snd (applyWorkflowRunId gh fuel workflowId config w))
    = (remoteCalls w ++ more)%list
    /\ Forall (fun ev =>
                 ev = ListWorkflowRuns (listRunsParams workflowId config)
                 \/ exists runId, ev = ListJobsForWorkflowRun (jobsParams config runId))
         more.
Proof.
  exact (Added_remoteCalls _ _ _ _ (applyWorkflowRunId_adds gh workflowId config fuel w)).
Qed.

(** ** The search comes to an end *)



Lemma steady_Date_now : steady Date_now.
Proof. intros w. simpl. split; [discriminate | lia]. Qed.


Lemma steady_sleep ms : 0 <= ms -> steady (sleep ms).
Proof. intros H w. simpl. split; [discriminate | lia]. Qed.




Section Steady.

Variable gh : Platform.
Variables (workflowId : Z) (config : Config) (idRegex : RegExp).
Hypothesis latency_nonneg : forall n, 0 <= latency gh n.
Hypothesis marker_parses : RegExp_new (commitId config) = Some idRegex.








End Steady.








(** ** Reading the timeout *)












Lemma forRunIds_withTimeout gh idRegex config value ids :
  forall w,
    forRunIds gh idRegex (withTimeout config value) ids w
    = forRunIds gh idRegex config ids w.
Proof.
  induction ids as [|runId rest IH]; intros w; [reflexivity|].
  simpl. unfold bind, tryCatch.
  change (getWorkflowRunJobSteps gh runId (withTimeout config value))
    with (getWorkflowRunJobSteps gh runId config).
  destruct (getWorkflowRunJobSteps gh runId config w) as [[steps|e|] w1];
    try reflexivity.
  - destruct (forSteps idRegex runId steps w1) as [[[|]|e|] w2]; try reflexivity.
    + apply IH.
    + destruct (negb (String.eqb (message e) "Not Found")); [reflexivity | apply IH].
  - destruct (negb (String.eqb (message e) "Not Found")); [reflexivity | apply IH].
Qed.

Lemma searchCycle_withTimeout gh workflowId config value timeoutMs fuel w :
  searchCycle gh fuel workflowId (withTimeout config value) timeoutMs w
  = searchCycle gh fuel workflowId config timeoutMs w.
Proof.
  unfold searchCycle, bind.
  change (getWorkflowRunIds gh workflowId (withTimeout config value))
    with (getWorkflowRunIds gh workflowId config).
  destruct (retryOrDie fuel (getWorkflowRunIds gh workflowId config)
              (fetchTimeout timeoutMs) w) as [[ids|e|] w1]; try reflexivity.
  change (newIdRegex (withTimeout config value)) with (newIdRegex config).
  destruct (newIdRegex config w1) as [[idRegex|e|] w2]; try reflexivity.
  apply forRunIds_withTimeout.
Qed.

Lemma searchLoop_withTimeout gh workflowId config value timeoutMs startTime fuel :
  forall e w,
    searchLoop gh fuel workflowId (withTimeout config value) timeoutMs startTime e w
    = searchLoop gh fuel workflowId config timeoutMs startTime e w.
Proof.
  induction fuel as [|fuel IH]; intros e w; [reflexivity|].
  destruct (Z.lt_ge_cases e timeoutMs) as [Hlt|Hge].
  - rewrite !searchLoop_cycle by exact Hlt. rewrite searchCycle_withTimeout.
    destruct (searchCycle gh fuel workflowId config timeoutMs w)
      as [[[|]|err|] w1]; try reflexivity. apply IH.
  - now rewrite !searchLoop_expired by exact Hge.
Qed.

(** X7.  An empty timeout and a timeout of zero are the default of 300 seconds.
    When the [workflow_timeout_seconds] input is empty, or [parseInt] reads
    the number 0 from it, [applyWorkflowRunId] does exactly what it does for
    the input [300], on every platform: the same calls, sleeps and end. *)
Theorem zero_or_empty_timeout_is_the_default (gh : Platform) (fuel : nat)
    (workflowId : Z) (config : Config) (w : World) :
  workflowTimeoutSeconds config = ""
  \/ parseInt (workflowTimeoutSeconds config) = Some 0 ->
  applyWorkflowRunId gh fuel workflowId config w
  = applyWorkflowRunId gh fuel workflowId (withTimeout config "300") w.
Proof.
  intros H.
  assert (Hs : exists seconds,
             getNumberFromValue (workflowTimeoutSeconds config) = Ok seconds
             /\ orDefault seconds WORKFLOW_TIMEOUT_SECONDS = 300).
  { unfold getNumberFromValue.
    destruct (String.eqb (workflowTimeoutSeconds config) "") eqn:E.
    - exists None. now split.
    - destruct H as [H|H]; [apply String.eqb_neq in E; now destruct E|].
      rewrite H. exists (Some 0). now split. }
  destruct Hs as (seconds & Hs & Hd).
  unfold applyWorkflowRunId, tryCatch.
  rewrite (resolve_parsed _ _ _ _ _ _ Hs), Hd.
  rewrite (resolve_parsed gh fuel workflowId (withTimeout config "300") (Some 300))
    by reflexivity.
  now rewrite searchLoop_withTimeout.
Qed.

(** The inputs of the specification's scenario, with no timeout given, and
    the input [0]. *)
Lemma zero_or_empty_timeout_is_the_default_witness :
  applyWorkflowRunId Demo.gh 2 7 Demo.config w0
  = applyWorkflowRunId Demo.gh 2 7 (withTimeout Demo.config "300") w0
  /\ applyWorkflowRunId Demo.late 4 7 (withTimeout Demo.config "0") w0
     = applyWorkflowRunId Demo.late 4 7
         (withTimeout (withTimeout Demo.config "0") "300") w0.
Proof.
  split.
  - apply (zero_or_empty_timeout_is_the_default Demo.gh 2 7 Demo.config w0).
    left. reflexivity.
  - apply (zero_or_empty_timeout_is_the_default Demo.late 4 7
             (withTimeout Demo.config "0") w0).
    right. reflexivity.
Defined.

(** ** What the retry envelope hands back *)

Lemma retryLoop_outcome {T} (retryFunc : M (list T)) budget startTime fuel :
  forall e w r w',
    retryLoop fuel retryFunc budget startTime e w = (r, w') ->
    match r with
    | Ok xs => xs <> [] /\ exists w1, retryFunc w1 = (Ok xs, w')
    | Throw err =>
        err = TimedOutFetching \/ exists w1, retryFunc w1 = (Throw err, w')
    | NoResult => True
    end.
Proof.
  induction fuel as [|fuel IH]; intros e w r w' H.
  - injection H as <- <-. exact I.
  - destruct (Z.lt_ge_cases e budget) as [Hlt|Hge].
    + rewrite retryLoop_attempt in H by exact Hlt.
      destruct (retryFunc w) as [[response|err|] w1] eqn:E.
      * destruct response as [|x xs].
        -- simpl in H. apply IH in H. exact H.
        -- simpl in H. injection H as <- <-. split; [discriminate | eauto].
      * injection H as <- <-. right. eauto.
      * injection H as <- <-. exact I.
    + rewrite retryLoop_expired in H by exact Hge. injection H as <- <-.
      now left.
Qed.

(** X8.  [retryOrDie] never hands back an empty sequence, and adds no error of
    its own but the timeout.  For every producer: a sequence that
    [retryOrDie] returns is not empty and is what an invocation of the
    producer returned, in the world that invocation left; an error that
    [retryOrDie] throws is its own timeout error or the error an invocation
    of the producer threw, with nothing done after it. *)
Theorem retryOrDie_hands_back_what_the_producer_gave {T : Type}
    (retryFunc : M (list T)) (timeoutMs : Z) (fuel : nat) (w : World)
    (r : Outcome (list T)) (w' : World) :
  retryOrDie fuel retryFunc timeoutMs w = (r, w') ->
  match r with
  | Ok xs => xs <> [] /\ exists w1, retryFunc w1 = (Ok xs, w')
  | Throw err =>
      err = TimedOutFetching \/ exists w1, retryFunc w1 = (Throw err, w')
  | NoResult => True
  end.
Proof. rewrite retryOrDie_enters. apply retryLoop_outcome. Qed.

(** The enumeration of the specification's scenario, and one that is
    rejected. *)
Lemma retryOrDie_hands_back_what_the_producer_gave_witness :
  ([101; 102] <> []
   /\ exists w1,
        getWorkflowRunIds Demo.gh 7 Demo.config w1
        = (Ok [101; 102],
           snd (retryOrDie 3 (getWorkflowRunIds Demo.gh 7 Demo.config) 1000 w0)))
  /\ (mkError "Not Found" = TimedOutFetching
      \/ exists w1,
           getWorkflowRunJobSteps Demo.disabled 101 Demo.config w1
           = (Throw (mkError "Not Found"),
              snd (retryOrDie 3 (getWorkflowRunJobSteps Demo.disabled 101 Demo.config)
                     1000 w0))).
Proof.
  split.
  - exact (retryOrDie_hands_back_what_the_producer_gave
             (getWorkflowRunIds Demo.gh 7 Demo.config) 1000 3 w0 (Ok [101; 102]) _
             eq_refl).
  - exact (retryOrDie_hands_back_what_the_producer_gave
             (getWorkflowRunJobSteps Demo.disabled 101 Demo.config) 1000 3 w0
             (Throw (mkError "Not Found")) _ eq_refl).
Defined.

(** ** Markers and step sets at the edges *)

Lemma empty_pattern_test (s : string) : RegExp_test [] s = true.
Proof. destruct s; reflexivity. Qed.

Lemma empty_pattern_steps (steps : list string) :
  stepsMatch [] steps = match steps with [] => false | _ => true end.
Proof.
  destruct steps as [|step steps]; [reflexivity|].
  simpl. now rewrite empty_pattern_test.
Qed.

Lemma stepSet_without_steps (jobs : list Job) :
  (forall job, In job jobs -> job_steps job = None \/ job_steps job = Some []) ->
  stepSet jobs = [].
Proof.
  intros H. unfold stepSet, Array_from. rewrite allStepsOf_flat.
  replace (flat_map stepNames jobs) with (@nil string); [reflexivity|].
  induction jobs as [|job jobs IH]; [reflexivity|].
  simpl. rewrite <- IH by (intros j Hj; apply H; now right).
  unfold stepNames. now destruct (H job (or_introl eq_refl)) as [-> | ->].
Qed.

(** X9.  A run none of whose jobs has steps is passed over, whatever the marker.
    When the jobs of a candidate are listed with the status 200 and every
    job comes without [steps] or with an empty list of them, the loop over
    the candidates goes on to the next candidate having set no output, for
    every pattern, also for the empty one, which every step name matches. *)
Theorem run_without_steps_is_passed_over (gh : Platform) (idRegex : RegExp)
    (config : Config) (runId : Z) (rest : list Z) (w : World) (jobs : list Job) :
  listJobsForWorkflowRun gh (calls w) (jobsParams config runId) = Response 200 jobs ->
  (forall job, In job jobs -> job_steps job = None \/ job_steps job = Some []) ->
  getWorkflowRunJobSteps gh runId config w
  = (Ok [], answered (latency gh) (ListJobsForWorkflowRun (jobsParams config runId)) w)
  /\ forRunIds gh idRegex config (runId :: rest) w
     = forRunIds gh idRegex config rest
         (answered (latency gh) (ListJobsForWorkflowRun (jobsParams config runId)) w).
Proof.
  intros Hj Hs. pose proof (stepSet_without_steps jobs Hs) as He. split.
  - rewrite (getWorkflowRunJobSteps_200 gh config w runId jobs Hj). now rewrite He.
  - apply (forRunIds_no_match gh idRegex config runId rest w jobs Hj).
    now rewrite He.
Qed.

(** A run with one job that has no [steps] yet and one whose list of steps
    is empty, searched with the empty pattern. *)
Lemma run_without_steps_is_passed_over_witness :
  let gh :=
    mkPlatform (listWorkflowRuns Demo.gh)
      (fun _ _ => Response 200 [mkJob 1 None; mkJob 2 (Some [])])
      (listRepoWorkflows Demo.gh) (createDispatch Demo.gh) (getWorkflowRun Demo.gh)
      (latency Demo.gh) in
  getWorkflowRunJobSteps gh 101 Demo.config w0
  = (Ok [], answered (latency gh)
              (ListJobsForWorkflowRun (jobsParams Demo.config 101)) w0)
  /\ forRunIds gh [] Demo.config [101] w0
     = forRunIds gh [] Demo.config []
         (answered (latency gh)
            (ListJobsForWorkflowRun (jobsParams Demo.config 101)) w0).
Proof.
  cbv zeta.
  apply (run_without_steps_is_passed_over _ [] Demo.config 101 [] w0
           [mkJob 1 None; mkJob 2 (Some [])]).
  - reflexivity.
  - intros job [<-|[<-|[]]]; [now left | now right].
Defined.

(** X10.  An absent [commitId] matches the first run that has a step.  When the
    marker is the empty pattern, which is what [run] hands over when the
    decoded inputs have no [commitId], a search cycle resolves to the first
    enumerated run whose jobs are listed with at least one step name,
    whatever the names are: the runs before it are passed over only if they
    have no step names or their request is rejected with "Not Found". *)
Theorem empty_marker_takes_the_first_run_with_steps (gh : Platform) (fuel : nat)
    (workflowId : Z) (config : Config) (timeoutMs : Z) (w w1 : World)
    (pre : list Z) (runId : Z) (post : list Z) (jobs : list Job) :
  commitId config = "" ->
  retryOrDie fuel (getWorkflowRunIds gh workflowId config) (fetchTimeout timeoutMs) w
  = (Ok (pre ++ runId :: post)%list, w1) ->
  (forall i r,
      nth_error pre i = Some r ->
      match listJobsForWorkflowRun gh (calls w1 + i) (jobsParams config r) with
      | Response status jobs => status = 200 /\ stepSet jobs = []
      | Rejected e => message e = "Not Found"
      end) ->
  listJobsForWorkflowRun gh (calls w1 + List.length pre) (jobsParams config runId)
  = Response 200 jobs ->
  stepSet jobs <> [] ->
  exists w',
    searchCycle gh fuel workflowId config timeoutMs w = (Ok true, w')
    /\ output "runId" w' = Some runId
    /\ inspected w' = (inspected w1 ++ pre ++ [runId])%list.
Proof.
  intros Hc Hids Hpre Hj Hne.
  assert (Hre : RegExp_new (commitId config) = Some []) by now rewrite Hc.
  destruct (Skips_total gh [] config pre w1) as [w2 Hsk].
  { intros i r Hi. specialize (Hpre i r Hi).
    destruct (listJobsForWorkflowRun gh (calls w1 + i) (jobsParams config r))
      as [status js|e]; [|exact Hpre].
    destruct Hpre as [-> ->]. now split. }
  eexists. split; [|split].
  - rewrite (searchCycle_inspects _ _ _ _ _ _ _ _ _ Hids Hre).
    rewrite (forRunIds_skips _ _ _ _ _ _ _ Hsk).
    apply (forRunIds_match gh [] config runId post w2 jobs).
    + now rewrite (Skips_calls _ _ _ _ _ _ Hsk).
    + rewrite empty_pattern_steps. now destruct (stepSet jobs).
  - reflexivity.
  - erewrite inspected_cons by reflexivity. erewrite inspected_cons by reflexivity.
    rewrite (Skips_inspected _ _ _ _ _ _ Hsk). simpl.
    now rewrite !app_nil_r, <- app_assoc.
Qed.

(** The scenario of the specification without a marker: run 101, which has
    the steps [checkout] and [build], is taken for the dispatched run. *)
Lemma empty_marker_takes_the_first_run_with_steps_witness :
  exists w',
    searchCycle Demo.gh 1 7 (mkConfig "t" "refs/heads/main" "repo" "owner" "" "")
      300000 w0
    = (Ok true, w')
    /\ output "runId" w' = Some 101
    /\ inspected w' = (inspected
                         (snd (retryOrDie 1
                                 (getWorkflowRunIds Demo.gh 7
                                    (mkConfig "t" "refs/heads/main" "repo" "owner" "" ""))
                                 (fetchTimeout 300000) w0))
                       ++ [] ++ [101])%list.
Proof.
  apply (empty_marker_takes_the_first_run_with_steps Demo.gh 1 7
           (mkConfig "t" "refs/heads/main" "repo" "owner" "" "") 300000 w0 _
           [] 101 [102] [Demo.job ["checkout"; "build"]]).
  - reflexivity.
  - reflexivity.
  - intros [|i] r Hi; discriminate Hi.
  - reflexivity.
  - discriminate.
Defined.

(** ** The main task: selecting and dispatching the workflow *)

Lemma append_assoc (a b c : string) : (a ++ b) ++ c = a ++ b ++ c.
Proof. induction a as [|x a IH]; [reflexivity|]. simpl. now rewrite IH. Qed.

Lemma append_nil_r (a : string) : a ++ "" = a.
Proof. induction a as [|x a IH]; [reflexivity|]. simpl. now rewrite IH. Qed.

Lemma length_append (a b : string) :
  String.length (a ++ b) = (String.length a + String.length b)%nat.
Proof. induction a as [|x a IH]; [reflexivity|]. simpl. now rewrite IH. Qed.

Lemma drop_append (a s : string) (k : nat) :
  Str.drop (String.length a + k) (a ++ s) = Str.drop k s.
Proof. induction a as [|x a IH]; [reflexivity | exact IH]. Qed.

Lemma endsWith_append (pre s p : string) :
  (String.length p <= String.length s)%nat ->
  Str.endsWith (pre ++ s) p = Str.endsWith s p.
Proof.
  intros H. unfold Str.endsWith. rewrite length_append.
  replace (String.length pre + String.length s - String.length p)%nat
    with (String.length pre + (String.length s - String.length p))%nat by lia.
  rewrite drop_append. f_equal.
  apply Nat.leb_le in H as E. rewrite E. apply Nat.leb_le. lia.
Qed.

Lemma endsWith_refl (p : string) : Str.endsWith p p = true.
Proof.
  unfold Str.endsWith. rewrite Nat.leb_refl, Nat.sub_diag. apply String.eqb_refl.
Qed.

Lemma endsWith_suffix (dir p : string) : Str.endsWith (dir ++ p) p = true.
Proof. rewrite endsWith_append by lia. apply endsWith_refl. Qed.

Lemma drop_split (n : nat) :
  forall s, exists pre, s = pre ++ Str.drop n s.
Proof.
  induction n as [|n IH]; intros s; [now exists ""|].
  destruct s as [|c s]; [now exists ""|].
  destruct (IH s) as [pre E]. exists (String c pre). simpl. now rewrite <- E.
Qed.

Lemma endsWith_split (s p : string) :
  Str.endsWith s p = true -> exists pre, s = pre ++ p.
Proof.
  unfold Str.endsWith. intros H. apply andb_prop in H as [_ H].
  apply String.eqb_eq in H.
  destruct (drop_split (String.length s - String.length p) s) as [pre E].
  exists pre. now rewrite H in E.
Qed.

Lemma endsWith_trans (s p q : string) :
  Str.endsWith s p = true -> Str.endsWith p q = true -> Str.endsWith s q = true.
Proof.
  intros Hsp Hpq. destruct (endsWith_split s p Hsp) as [pre ->].
  rewrite endsWith_append; [exact Hpq|].
  unfold Str.endsWith in Hpq. apply andb_prop in Hpq as [H _].
  now apply Nat.leb_le.
Qed.

(** The message of [workflowNotFound] is not the one of a disabled
    workflow: it ends with the emoji. *)
Lemma workflowNotFound_is_fatal (workflowRef owner repo : string) :
  Str.endsWith (message (workflowNotFound workflowRef owner repo))
    "a disabled workflow" = false.
Proof.
  destruct (Str.endsWith (message (workflowNotFound workflowRef owner repo))
              "a disabled workflow") eqn:E; [|reflexivity].
  assert (H : Str.endsWith (message (workflowNotFound workflowRef owner repo)) "w"
              = true)
    by (eapply endsWith_trans; [exact E | reflexivity]).
  unfold workflowNotFound, message in H.
  repeat (rewrite endsWith_append in H
            by (rewrite ?length_append; simpl String.length; lia)).
  discriminate H.
Qed.

Section Task.

Variable gh : Platform.
Variables (fuel : nat) (env : Env) (w : World).

Let listed :=
  answered (latency gh) (ListRepoWorkflows (ownerOf env) (repoOf env)) w.

Lemma task_unknown commitId status workflows :
  decodeInputs env = Ok commitId ->
  listRepoWorkflows gh (calls w) (ownerOf env) (repoOf env)
  = Response status workflows ->
  find (selects (getInput env "workflow")) workflows = None ->
  task gh fuel env w
  = (Throw (workflowNotFound (getInput env "workflow") (ownerOf env) (repoOf env)),
     listed).
Proof.
  intros Hdec Hlist Hfind. unfold task. rewrite Hdec. unfold lift at 1.
  erewrite bind_Ok by reflexivity.
  erewrite bind_Ok by (apply request_Response, Hlist).
  cbn [snd]. now rewrite Hfind.
Qed.

Lemma task_found commitId status workflows wf :
  decodeInputs env = Ok commitId ->
  listRepoWorkflows gh (calls w) (ownerOf env) (repoOf env)
  = Response status workflows ->
  find (selects (getInput env "workflow")) workflows = Some wf ->
  let dispatch :=
    CreateDispatch (ownerOf env) (repoOf env) (wf_id wf) (refOf env) in
  task gh fuel env w
  = match createDispatch gh (S (calls w)) (ownerOf env) (repoOf env) (wf_id wf)
            (refOf env) with
    | Response _ _ =>
        applyWorkflowRunId gh fuel (wf_id wf) (configOf env commitId)
          (noted (SetOutput "workflowId" (wf_id wf))
             (answered (latency gh) dispatch listed))
    | Rejected e => (Throw e, answered (latency gh) dispatch listed)
    end.
Proof.
  intros Hdec Hlist Hfind dispatch. unfold task. rewrite Hdec. unfold lift at 1.
  erewrite bind_Ok by reflexivity.
  erewrite bind_Ok by (apply request_Response, Hlist).
  cbn [snd]. rewrite Hfind.
  destruct (createDispatch gh (S (calls w)) (ownerOf env) (repoOf env) (wf_id wf)
              (refOf env)) as [dstatus []|e] eqn:Hd.
  - erewrite bind_Ok by (apply request_Response, Hd).
    erewrite bind_Ok by reflexivity. reflexivity.
  - apply bind_Throw. apply request_Rejected. exact Hd.
Qed.

End Task.

Lemma find_first {A} (f : A -> bool) (pre : list A) (x : A) (post : list A) :
  (forall y, In y pre -> f y = false) -> f x = true ->
  find f (pre ++ x :: post) = Some x.
Proof.
  intros Hpre Hx. induction pre as [|y pre IH]; simpl; [now rewrite Hx|].
  rewrite (Hpre y) by now left. apply IH. intros z Hz. apply Hpre. now right.
Qed.

Lemma find_none {A} (f : A -> bool) (l : list A) :
  (forall y, In y l -> f y = false) -> find f l = None.
Proof.
  intros H. induction l as [|y l IH]; [reflexivity|]. simpl.
  rewrite (H y) by now left. apply IH. intros z Hz. apply H. now right.
Qed.

(** X11.  A workflow that is not in the listing is not dispatched.  When no
    workflow of the listing has the name, the id or a path ending with the
    [workflow] input, [run] ends after that one remote call: nothing is
    dispatched, no output is set, and the operation is marked failed with
    the message that names the input and the repository. *)
Theorem unknown_workflow_is_not_dispatched (gh : Platform) (fuel : nat) (env : Env)
    (w : World) (commitId : option string) (status : Z) (workflows : list Workflow) :
  decodeInputs env = Ok commitId ->
  listRepoWorkflows gh (calls w) (ownerOf env) (repoOf env)
  = Response status workflows ->
  (forall workflow,
      In workflow workflows ->
      wf_name workflow <> getInput env "workflow"
      /\ Str.ofZ (wf_id workflow) <> getInput env "workflow"
      /\ Str.endsWith (wf_path workflow) (getInput env "workflow") = false) ->
  run gh fuel env w
  = (Ok tt,
     noted
       (SetFailed
          ("Unable to find workflow '" ++ getInput env "workflow" ++ "' in "
           ++ ownerOf env ++ "/" ++ repoOf env ++ " " ++ sadFace))
       (answered (latency gh) (ListRepoWorkflows (ownerOf env) (repoOf env)) w)).
Proof.
  intros Hdec Hlist Hnone. unfold run.
  erewrite tryCatch_Throw.
  2:{ eapply task_unknown; [exact Hdec | exact Hlist |].
      apply find_none. intros wf Hwf. destruct (Hnone wf Hwf) as (Hn & Hi & Hp).
      unfold selects. rewrite Hp.
      apply String.eqb_neq in Hn as ->. now apply String.eqb_neq in Hi as ->. }
  unfold onError. now rewrite workflowNotFound_is_fatal.
Qed.

(** The listing of the disabled-workflow scenario, asked for [echo-3.yaml]. *)
Lemma unknown_workflow_is_not_dispatched_witness :
  let env :=
    mkEnv (fun name => if String.eqb name "workflow" then "echo-3.yaml" else "")
      "refs/heads/main" "owner" "repo" None (fun _ => Ok None) in
  run Demo.disabled 5 env w0
  = (Ok tt,
     noted
       (SetFailed
          ("Unable to find workflow '" ++ "echo-3.yaml" ++ "' in "
           ++ "owner" ++ "/" ++ "repo" ++ " " ++ sadFace))
       (answered (latency Demo.disabled) (ListRepoWorkflows "owner" "repo") w0)).
Proof.
  cbv zeta.
  apply (unknown_workflow_is_not_dispatched Demo.disabled 5
           (mkEnv (fun name => if String.eqb name "workflow" then "echo-3.yaml" else "")
              "refs/heads/main" "owner" "repo" None (fun _ => Ok None))
           w0 None 200
           [mkWorkflow 1854247 "Message Echo 1" ".github/workflows/echo-1.yaml";
            Demo.echo2]).
  - reflexivity.
  - reflexivity.
  - intros workflow [<-|[<-|[]]]; (split; [discriminate | split; [discriminate|]]);
      reflexivity.
Defined.

(** X12.  The output [workflowId] outlives a failed search.  When the workflow
    is found and the dispatch request is answered, with whatever status,
    [run] sets the output [workflowId] before the search for the run starts,
    and a return of [run] leaves one of two states: the outputs [workflowId]
    and [runId] set and the operation not marked failed, or the output
    [workflowId] alone set and the operation marked failed once. *)
Theorem workflowId_outlives_a_failed_search (gh : Platform) (fuel : nat) (env : Env)
    (w : World) (commitId : option string) (status : Z) (workflows : list Workflow)
    (wf : Workflow) (dstatus : Z) (w' : World) :
  decodeInputs env = Ok commitId ->
  listRepoWorkflows gh (calls w) (ownerOf env) (repoOf env)
  = Response status workflows ->
  find (selects (getInput env "workflow")) workflows = Some wf ->
  createDispatch gh (S (calls w)) (ownerOf env) (repoOf env) (wf_id wf) (refOf env)
  = Response dstatus tt ->
  run gh fuel env w = (Ok tt, w') ->
  (exists runId,
      outputs w' = (outputs w ++ [("workflowId", wf_id wf); ("runId", runId)])%list
      /\ failures w' = failures w)
  \/ (exists msg,
        outputs w' = (outputs w ++ [("workflowId", wf_id wf)])%list
        /\ failures w' = (failures w ++ [msg])%list).
Proof.
  intros Hdec Hlist Hfind Hd Hrun.
  pose proof (task_found gh fuel env w commitId status workflows wf Hdec Hlist Hfind)
    as Ht.
  cbv zeta in Ht. rewrite Hd in Ht.
  set (w2 := noted (SetOutput "workflowId" (wf_id wf))
               (answered (latency gh)
                  (CreateDispatch (ownerOf env) (repoOf env) (wf_id wf) (refOf env))
                  (answered (latency gh)
                     (ListRepoWorkflows (ownerOf env) (repoOf env)) w))) in *.
  assert (Ho : outputs w2 = (outputs w ++ [("workflowId", wf_id wf)])%list).
  { subst w2. do 3 (erewrite outputs_cons by reflexivity). simpl.
    now rewrite !app_nil_r. }
  assert (Hf : failures w2 = failures w).
  { subst w2. do 3 (erewrite failures_cons by reflexivity). simpl.
    now rewrite !app_nil_r. }
  unfold run, tryCatch in Hrun. rewrite Ht in Hrun.
  destruct (applyWorkflowRunId gh fuel (wf_id wf) (configOf env commitId) w2)
    as [r w3] eqn:E.
  pose proof (applyWorkflowRunId_ends _ _ _ _ _ _ _ E) as He.
  destruct r as [[]|e|]; [|contradiction|discriminate Hrun].
  injection Hrun as <-.
  destruct He as [(runId & w1 & seen & Ha & _ & ->)|(e & w1 & Ha & ->)].
  - left. exists runId. split.
    + erewrite outputs_cons by reflexivity.
      rewrite (Added_outputs _ _ _ _ Ha), Ho. now rewrite <- app_assoc.
    + erewrite failures_cons by reflexivity. simpl. rewrite app_nil_r, <- Hf.
      apply quiet_failures.
      eapply Added_weaken; [apply searchEvent_quiet | exact Ha].
  - right. exists (message e). split.
    + unfold givenUp. do 3 (erewrite outputs_cons by reflexivity). simpl.
      rewrite !app_nil_r. now rewrite (Added_outputs _ _ _ _ Ha).
    + unfold givenUp. do 3 (erewrite failures_cons by reflexivity). simpl.
      rewrite !app_nil_r, <- Hf. f_equal. apply quiet_failures.
      eapply Added_weaken; [apply searchEvent_quiet | exact Ha].
Qed.

(** A workflow that is found and dispatched, whose run never shows up in the
    enumeration: the platform lists the workflow and no run at all, and the
    search is given one second. *)
Lemma workflowId_outlives_a_failed_search_witness :
  let gh :=
    mkPlatform (fun _ _ => Response 200 []) (listJobsForWorkflowRun Demo.gh)
      (listRepoWorkflows Demo.disabled) (createDispatch Demo.gh)
      (getWorkflowRun Demo.gh) (fun _ => 100) in
  let env :=
    mkEnv (fun name => if String.eqb name "workflow" then "echo-2.yaml"
                       else if String.eqb name "workflow_timeout_seconds" then "1"
                       else "")
      "refs/heads/main" "owner" "repo" None (fun _ => Ok None) in
  let w' := snd (run gh 5 env w0) in
  (exists runId,
      outputs w' = (outputs w0 ++ [("workflowId", 1854248); ("runId", runId)])%list
      /\ failures w' = failures w0)
  \/ (exists msg,
        outputs w' = (outputs w0 ++ [("workflowId", 1854248)])%list
        /\ failures w' = (failures w0 ++ [msg])%list).
Proof.
  intros gh env w'.
  apply (workflowId_outlives_a_failed_search gh 5 env w0 None 200
           [mkWorkflow 1854247 "Message Echo 1" ".github/workflows/echo-1.yaml";
            Demo.echo2]
           Demo.echo2 204); reflexivity.
Defined.

(** X13.  The first workflow of the listing that the [workflow] input selects is
    the one dispatched.  When the listing is [pre ++ wf :: post], no
    workflow of [pre] is selected, and [wf] has the name, prints the id, or
    has a path that ends with the input, [run] makes the listing call and
    then one dispatch call, for the id of [wf] and the ref of the inputs;
    every remote call after it is a run-listing or job-listing call of the
    search for a run of [wf].  Name, id and path have no precedence among
    them: the order of the listing decides. *)
Theorem dispatches_the_first_selected_workflow (gh : Platform) (fuel : nat)
    (env : Env) (w : World) (commitId : option string) (status : Z)
    (pre : list Workflow) (wf : Workflow) (post : list Workflow) :
  decodeInputs env = Ok commitId ->
  listRepoWorkflows gh (calls w) (ownerOf env) (repoOf env)
  = Response status (pre ++ wf :: post)%list ->
  (forall workflow,
      In workflow pre -> selects (getInput env "workflow") workflow = false) ->
  wf_name wf = getInput env "workflow"
  \/ Str.ofZ (wf_id wf) = getInput env "workflow"
  \/ (exists dir, wf_path wf = dir ++ getInput env "workflow") ->
  exists more,
    remoteCalls (snd (run gh fuel env w))
    = (remoteCalls w
       ++ ListRepoWorkflows (ownerOf env) (repoOf env)
       :: CreateDispatch (ownerOf env) (repoOf env) (wf_id wf) (refOf env)
       :: more)%list
    /\ Forall (fun ev =>
                 ev = ListWorkflowRuns
                        (listRunsParams (wf_id wf) (configOf env commitId))
                 \/ exists runId,
                      ev = ListJobsForWorkflowRun
                             (jobsParams (configOf env commitId) runId))
         more.
Proof.
  intros Hdec Hlist Hpre Hsel.
  assert (Hwf : selects (getInput env "workflow") wf = true).
  { unfold selects. destruct Hsel as [<-|[<-|[dir ->]]].
    - now rewrite String.eqb_refl.
    - rewrite String.eqb_refl. now rewrite orb_true_r.
    - rewrite endsWith_suffix. now rewrite !orb_true_r. }
  pose proof (task_found gh fuel env w commitId status _ wf Hdec Hlist
                (find_first _ pre wf post Hpre Hwf)) as Ht.
  cbv zeta in Ht.
  set (w1 := answered (latency gh)
               (CreateDispatch (ownerOf env) (repoOf env) (wf_id wf) (refOf env))
               (answered (latency gh)
                  (ListRepoWorkflows (ownerOf env) (repoOf env)) w)) in *.
  assert (Hc : remoteCalls w1
               = (remoteCalls w
                  ++ [ListRepoWorkflows (ownerOf env) (repoOf env);
                      CreateDispatch (ownerOf env) (repoOf env) (wf_id wf)
                        (refOf env)])%list).
  { subst w1. do 2 (erewrite remoteCalls_cons by reflexivity). simpl.
    now rewrite <- app_assoc. }
  clearbody w1. unfold run, tryCatch. rewrite Ht.
  destruct (createDispatch gh (S (calls w)) (ownerOf env) (repoOf env) (wf_id wf)
              (refOf env)) as [dstatus u|e].
  - set (w2 := noted (SetOutput "workflowId" (wf_id wf)) w1).
    pose proof (applyWorkflowRunId_adds gh (wf_id wf) (configOf env commitId)
                  fuel w2) as Ha.
    apply Added_remoteCalls in Ha. destruct Ha as (more & Hm & Hall).
    exists more. split; [|exact Hall].
    pose proof (applyWorkflowRunId_catches gh fuel (wf_id wf)
                  (configOf env commitId) w2) as Hnt.
    destruct (applyWorkflowRunId gh fuel (wf_id wf) (configOf env commitId) w2)
      as [[u'|e|] w3]; simpl in Hm |- *;
      try (now destruct (Hnt e));
      (rewrite Hm; subst w2; erewrite remoteCalls_cons by reflexivity; simpl;
       rewrite app_nil_r, Hc; now rewrite <- app_assoc).
  - exists []. split; [|constructor]. unfold onError.
    destruct (Str.endsWith (message e) "a disabled workflow"); simpl;
      (erewrite remoteCalls_cons by reflexivity; simpl; now rewrite app_nil_r, Hc).
Qed.

(** A listing in which the second workflow has the path that ends with the
    input and the third has the input for its name: the second is
    dispatched. *)
Lemma dispatches_the_first_selected_workflow_witness :
  let listing :=
    [mkWorkflow 1 "Build" ".github/workflows/build.yaml";
     mkWorkflow 2 "Message Echo 2" ".github/workflows/echo-2.yaml";
     mkWorkflow 3 "echo-2.yaml" ".github/workflows/other.yaml"] in
  let gh :=
    mkPlatform (listWorkflowRuns Demo.gh) (listJobsForWorkflowRun Demo.gh)
      (fun _ _ _ => Response 200 listing) (createDispatch Demo.disabled)
      (getWorkflowRun Demo.gh) (latency Demo.gh) in
  exists more,
    remoteCalls (snd (run gh 5 Demo.env w0))
    = (remoteCalls w0
       ++ ListRepoWorkflows "owner" "repo"
       :: CreateDispatch "owner" "repo" 2 "refs/heads/main"
       :: more)%list
    /\ Forall (fun ev =>
                 ev = ListWorkflowRuns (listRunsParams 2 (configOf Demo.env None))
                 \/ exists runId,
                      ev = ListJobsForWorkflowRun
                             (jobsParams (configOf Demo.env None) runId))
         more.
Proof.
  intros listing gh.
  apply (dispatches_the_first_selected_workflow gh 5 Demo.env w0 None 200
           [mkWorkflow 1 "Build" ".github/workflows/build.yaml"]
           (mkWorkflow 2 "Message Echo 2" ".github/workflows/echo-2.yaml")
           [mkWorkflow 3 "echo-2.yaml" ".github/workflows/other.yaml"]).
  - reflexivity.
  - reflexivity.
  - intros workflow [<-|[]]. reflexivity.
  - right. right. exists ".github/workflows/". reflexivity.
Defined.



(** ** The main task: the [repo] input *)

Lemma splitSlash_plain (s : string) :
  noSlash s = true -> forall cur, splitSlash cur s = [cur ++ s].
Proof.
  induction s as [|c s IH]; intros H cur; simpl.
  - now rewrite append_nil_r.
  - simpl in H. apply andb_prop in H as [Hc Hs].
    apply negb_true_iff in Hc. rewrite Hc, (IH Hs).
    now rewrite append_assoc.
Qed.

Lemma splitSlash_slash (s rest : string) :
  noSlash s = true ->
  forall cur, splitSlash cur (s ++ "/" ++ rest) = (cur ++ s) :: splitSlash "" rest.
Proof.
  induction s as [|c s IH]; intros H cur; simpl.
  - now rewrite append_nil_r.
  - simpl in H. apply andb_prop in H as [Hc Hs].
    apply negb_true_iff in Hc. rewrite Hc, (IH Hs).
    now rewrite append_assoc.
Qed.

(** X15.  The [repo] input is cut at its slashes.  When the input is
    [o/r], or [o/r/...] with anything after a second slash, where neither
    [o] nor [r] has a slash, [run] takes [o] for the owner and [r] for the
    repository, in place of those of the context; what follows a second
    slash is dropped. *)
Theorem repo_input_is_cut_at_the_slashes (env : Env) (o r tail : string) :
  noSlash o = true ->
  noSlash r = true ->
  tail = "" \/ (exists t, tail = "/" ++ t) ->
  getInput env "repo" = o ++ "/" ++ r ++ tail ->
  ownerOf env = o /\ repoOf env = r.
Proof.
  intros Ho Hr Htail Hin.
  assert (Hs : ownerRepoOf env = o :: splitSlash "" (r ++ tail)).
  { unfold ownerRepoOf. rewrite Hin.
    replace (String.eqb (o ++ "/" ++ r ++ tail) "") with false
      by (now destruct o).
    now rewrite (splitSlash_slash o (r ++ tail) Ho ""). }
  unfold ownerOf, repoOf. rewrite Hs. split; [reflexivity|].
  destruct Htail as [->|[t ->]].
  - rewrite append_nil_r. now rewrite (splitSlash_plain r Hr "").
  - now rewrite (splitSlash_slash r t Hr "").
Qed.

(** The inputs [acme/tools] and [acme/tools/extra]. *)
Lemma repo_input_is_cut_at_the_slashes_witness :
  let env input :=
    mkEnv (fun name => if String.eqb name "repo" then input else "")
      "refs/heads/main" "owner" "repo" None (fun _ => Ok None) in
  (ownerOf (env "acme/tools") = "acme" /\ repoOf (env "acme/tools") = "tools")
  /\ (ownerOf (env "acme/tools/extra") = "acme"
      /\ repoOf (env "acme/tools/extra") = "tools").
Proof.
  intros env. split.
  - apply (repo_input_is_cut_at_the_slashes (env "acme/tools") "acme" "tools" "");
      [reflexivity | reflexivity | now left | reflexivity].
  - apply (repo_input_is_cut_at_the_slashes (env "acme/tools/extra")
             "acme" "tools" "/extra");
      [reflexivity | reflexivity | right; now exists "extra" | reflexivity].
Defined.

(** ** The second copy: the URL of the identified run *)

Section ApiInspection.

Variable gh : Platform.
Variables (idRegex : RegExp) (config : Config).

Lemma api_forSteps_no_match id steps w :
  stepsMatch idRegex steps = false ->
  Api.forSteps gh idRegex id config steps w = (Ok false, w).
Proof.
  induction steps as [|step steps IH]; intros H; [reflexivity|].
  simpl in H. apply orb_false_iff in H as [H1 H2].
  simpl. rewrite H1. now apply IH.
Qed.

Lemma api_forSteps_match id steps w :
  stepsMatch idRegex steps = true ->
  Api.forSteps gh idRegex id config steps w
  = (url <- Api.getWorkflowRunUrl gh id config ;;
     core_setOutput "run_id" id ;;
     ret true) w.
Proof.
  induction steps as [|step steps IH]; intros H; [discriminate H|].
  simpl in H. simpl. destruct (RegExp_test idRegex step); [reflexivity|].
  now apply IH.
Qed.

Lemma api_forRunIds_skips pre rest w w' :
  Skips gh idRegex config pre w w' ->
  Api.forRunIds gh idRegex config (pre ++ rest) w
  = Api.forRunIds gh idRegex config rest w'.
Proof.
  induction 1 as [w | runId ids w jobs w' Hj Hm _ IH | runId ids w e w' Hj He _ IH].
  - reflexivity.
  - rewrite <- IH. simpl. unfold bind at 1, tryCatch.
    erewrite bind_Ok by (apply getWorkflowRunJobSteps_200; exact Hj).
    now rewrite api_forSteps_no_match by exact Hm.
  - rewrite <- IH. simpl. unfold bind at 1, tryCatch.
    erewrite bind_Throw by (apply getWorkflowRunJobSteps_Rejected; exact Hj).
    rewrite He. reflexivity.
Qed.

Variables (runId : Z) (rest : list Z) (w : World) (jobs : list Job).

Let asked := answered (latency gh) (ListJobsForWorkflowRun (jobsParams config runId)) w.
Let fetched :=
  answered (latency gh) (GetWorkflowRun (owner config) (repo config) runId) asked.

Hypothesis jobs_listed :
  listJobsForWorkflowRun gh (calls w) (jobsParams config runId) = Response 200 jobs.
Hypothesis marker_found : stepsMatch idRegex (stepSet jobs) = true.

Lemma api_forRunIds_match :
  Api.forRunIds gh idRegex config (runId :: rest) w
  = match getWorkflowRun gh (S (calls w)) (owner config) (repo config) runId with
    | Response status url =>
        if status =? 200 then (Ok true, noted (SetOutput "run_id" runId) fetched)
        else (Throw (unexpectedRunStatus status),
              noted (urlFailure (message (unexpectedRunStatus status))) fetched)
    | Rejected e =>
        if String.eqb (message e) "Not Found"
        then Api.forRunIds gh idRegex config rest
               (noted (urlFailure (message e)) fetched)
        else (Throw e, noted (urlFailure (message e)) fetched)
    end.
Proof.
  simpl. unfold bind at 1, tryCatch.
  erewrite bind_Ok by (apply getWorkflowRunJobSteps_200; exact jobs_listed).
  rewrite api_forSteps_match by exact marker_found.
  unfold bind at 1, Api.getWorkflowRunUrl, tryCatch.
  destruct (getWorkflowRun gh (S (calls w)) (owner config) (repo config) runId)
    as [status url|e] eqn:E.
  - erewrite bind_Ok by (apply request_Response; exact E). cbv beta iota.
    destruct (Z.eqb_spec status 200) as [->|Hs]; [reflexivity|].
    reflexivity.
  - erewrite bind_Throw by (apply request_Rejected; exact E).
    unfold core_error, record, bind, throw. cbn [message].
    destruct (String.eqb (message e) "Not Found"); reflexivity.
Qed.

End ApiInspection.

(** X16.  The second copy resolves after fetching the URL.  In [api.ts], when
    the candidates [pre] are passed over, the jobs of [runId] are listed
    with a step name that passes the marker test and the request for the
    run itself is answered with the status 200, the loop over the
    candidates returns with the output [run_id] set to [runId]: the request
    for the run is the one call made between the match and the output, and
    no candidate of [post] is inspected. *)
Theorem api_resolves_after_fetching_the_url (gh : Platform) (idRegex : RegExp)
    (config : Config) (pre : list Z) (runId : Z) (post : list Z) (w w1 : World)
    (jobs : list Job) (url : string) :
  Skips gh idRegex config pre w w1 ->
  listJobsForWorkflowRun gh (calls w1) (jobsParams config runId) = Response 200 jobs ->
  stepsMatch idRegex (stepSet jobs) = true ->
  getWorkflowRun gh (S (calls w1)) (owner config) (repo config) runId
  = Response 200 url ->
  exists w',
    Api.forRunIds gh idRegex config (pre ++ runId :: post) w = (Ok true, w')
    /\ events w'
       = (events w1
          ++ [ListJobsForWorkflowRun (jobsParams config runId);
              GetWorkflowRun (owner config) (repo config) runId;
              SetOutput "run_id" runId])%list
    /\ output "run_id" w' = Some runId
    /\ inspected w' = (inspected w ++ pre ++ [runId])%list.
Proof.
  intros Hsk Hj Hm Hu. eexists. split; [|split; [|split]].
  - rewrite (api_forRunIds_skips _ _ _ _ _ _ _ Hsk).
    rewrite (api_forRunIds_match gh idRegex config runId post w1 jobs Hj Hm).
    rewrite Hu. reflexivity.
  - do 3 (erewrite events_cons by reflexivity). now rewrite <- !app_assoc.
  - reflexivity.
  - do 3 (erewrite inspected_cons by reflexivity).
    rewrite (Skips_inspected _ _ _ _ _ _ Hsk). simpl.
    now rewrite !app_nil_r, <- app_assoc.
Qed.

(** The scenario of the specification, for the marker [M1]. *)
Lemma api_resolves_after_fetching_the_url_witness :
  exists w',
    Api.forRunIds Demo.gh (map Lit (Str.chars "M1")) Demo.config ([101] ++ 102 :: [])
      w0
    = (Ok true, w')
    /\ events w'
       = (events (answered (latency Demo.gh)
                    (ListJobsForWorkflowRun (jobsParams Demo.config 101)) w0)
          ++ [ListJobsForWorkflowRun (jobsParams Demo.config 102);
              GetWorkflowRun (owner Demo.config) (repo Demo.config) 102;
              SetOutput "run_id" 102])%list
    /\ output "run_id" w' = Some 102
    /\ inspected w' = (inspected w0 ++ [101] ++ [102])%list.
Proof.
  apply (api_resolves_after_fetching_the_url Demo.gh (map Lit (Str.chars "M1"))
           Demo.config [101] 102 [] w0 _ [Demo.job ["checkout"; "echo M1 done"]]
           "https://github.test/runs/102").
  - eapply Skips_no_match; [reflexivity | reflexivity | apply Skips_nil].
  - reflexivity.
  - reflexivity.
  - reflexivity.
Defined.

(** X17.  In the second copy a match is not enough.  In [api.ts], when the jobs
    of a candidate carry the marker and the request for the run itself is
    rejected, the candidate is treated as one whose jobs could not be
    listed: a rejection with "Not Found" is swallowed and the loop goes on
    to the next candidate with no output set, so that a later candidate or a
    later cycle decides; any other rejection is thrown, to end the search.
    In both cases the error is logged by [getWorkflowRunUrl]. *)
Theorem api_match_without_url_is_passed_over (gh : Platform) (idRegex : RegExp)
    (config : Config) (runId : Z) (rest : list Z) (w : World) (jobs : list Job)
    (e : Error) :
  listJobsForWorkflowRun gh (calls w) (jobsParams config runId) = Response 200 jobs ->
  stepsMatch idRegex (stepSet jobs) = true ->
  getWorkflowRun gh (S (calls w)) (owner config) (repo config) runId = Rejected e ->
  let w' :=
    noted (urlFailure (message e))
      (answered (latency gh) (GetWorkflowRun (owner config) (repo config) runId)
         (answered (latency gh) (ListJobsForWorkflowRun (jobsParams config runId))
            w)) in
  outputs w' = outputs w
  /\ Api.forRunIds gh idRegex config (runId :: rest) w
     = if String.eqb (message e) "Not Found"
       then Api.forRunIds gh idRegex config rest w'
       else (Throw e, w').
Proof.
  intros Hj Hm Hu w'. split.
  - subst w'. do 3 (erewrite outputs_cons by reflexivity). simpl.
    now rewrite !app_nil_r.
  - rewrite (api_forRunIds_match gh idRegex config runId rest w jobs Hj Hm).
    now rewrite Hu.
Qed.

(** Run 102 carries the marker [M1] and the request for it is rejected with
    "Not Found"; it was the last candidate, and the loop ends without a
    match. *)
Lemma api_match_without_url_is_passed_over_witness :
  let gh :=
    mkPlatform (listWorkflowRuns Demo.gh) (listJobsForWorkflowRun Demo.gh)
      (listRepoWorkflows Demo.gh) (createDispatch Demo.gh)
      (fun _ _ _ _ => Rejected (mkError "Not Found")) (latency Demo.gh) in
  let w' :=
    noted (urlFailure "Not Found")
      (answered (latency gh) (GetWorkflowRun "owner" "repo" 102)
         (answered (latency gh) (ListJobsForWorkflowRun (jobsParams Demo.config 102))
            w0)) in
  outputs w' = outputs w0
  /\ Api.forRunIds gh (map Lit (Str.chars "M1")) Demo.config [102] w0
     = (Ok false, w').
Proof.
  intros gh w'.
  exact (api_match_without_url_is_passed_over gh (map Lit (Str.chars "M1"))
           Demo.config 102 [] w0 [Demo.job ["checkout"; "echo M1 done"]]
           (mkError "Not Found") eq_refl eq_refl eq_refl).
Defined.

(** ** Looking a workflow up by its file name *)

Lemma dotted_parses (p : list ascii) :
  forallb (fun c => Ascii.eqb c "."%char || negb (isSyntaxCharacter c)) p = true ->
  parseAtoms p
  = Some (map (fun c => if Ascii.eqb c "."%char then AnyChar else Lit c) p).
Proof.
  induction p as [|c p IH]; simpl; intros H; [reflexivity|].
  apply andb_true_iff in H. destruct H as [Hc Hp].
  destruct (Ascii.eqb c ".") eqn:E1; [now rewrite (IH Hp)|].
  simpl in Hc. apply negb_true_iff in Hc.
  destruct (Ascii.eqb c "\") eqn:E2.
  { apply Ascii.eqb_eq in E2. subst c. discriminate. }
  rewrite Hc, (IH Hp). reflexivity.
Qed.

Lemma dotted_matchHere (m : string) :
  forall s tail,
    instanceOf m s = true ->
    matchHere
      (map (fun c => if Ascii.eqb c "."%char then AnyChar else Lit c) (Str.chars m))
      (s ++ tail) = true.
Proof.
  induction m as [|a m IH]; intros s tail H; [reflexivity|].
  destruct s as [|b s]; [discriminate H|].
  simpl in H. apply andb_true_iff in H. destruct H as [Hc Hm].
  simpl. rewrite (IH s tail Hm), andb_true_r.
  destruct (Ascii.eqb a ".") eqn:Ea; simpl.
  - apply orb_true_iff in Hc. destruct Hc as [Hc|Hc]; [|exact Hc].
    apply Ascii.eqb_eq in Ea, Hc. now subst.
  - rewrite orb_false_r in Hc. exact Hc.
Qed.

Lemma RegExp_test_later (re : RegExp) (dir s : string) :
  matchHere re s = true -> RegExp_test re (dir ++ s) = true.
Proof.
  intros H. induction dir as [|c dir IH]; simpl.
  - destruct s; simpl; now rewrite H.
  - rewrite IH. apply orb_true_r.
Qed.

Lemma instanceOf_refl (m : string) : instanceOf m m = true.
Proof.
  induction m as [|a m IH]; [reflexivity|]. simpl.
  now rewrite Ascii.eqb_refl, IH.
Qed.

Lemma findByPath_first filename re pre wf post :
  RegExp_new filename = Some re ->
  (forall x, In x pre -> RegExp_test re (wf_path x) = false) ->
  RegExp_test re (wf_path wf) = true ->
  Part0.findByPath filename (pre ++ wf :: post) = Ok (Some wf).
Proof.
  intros Hre Hpre Hwf. induction pre as [|x pre IH]; simpl; rewrite Hre.
  - now rewrite Hwf.
  - rewrite (Hpre x) by now left. apply IH. intros y Hy. apply Hpre. now right.
Qed.

Lemma findByPath_none filename workflows :
  (forall x,
      In x workflows ->
      exists re, RegExp_new filename = Some re /\ RegExp_test re (wf_path x) = false) ->
  Part0.findByPath filename workflows = Ok None.
Proof.
  intros H. induction workflows as [|x workflows IH]; [reflexivity|]. simpl.
  destruct (H x (or_introl eq_refl)) as (re & -> & ->).
  apply IH. intros y Hy. apply H. now right.
Qed.

(** X18.  [getWorkflowId] takes the file name for a pattern and returns the first
    match.  For a file name made of pattern characters and dots, when the
    listing is answered with the status 200, [getWorkflowId] returns the id
    of the first workflow of the listing whose path has, anywhere in it, the
    file name or a string that differs from it only where the file name has
    a dot: a dot of the file name stands for any character.  One remote call
    is made and nothing is logged. *)
Theorem getWorkflowId_takes_the_first_match (gh : Platform) (config : Config)
    (filename : string) (w : World) (pre : list Workflow) (wf : Workflow)
    (post : list Workflow) (dir s tail : string) :
  dotSafe filename = true ->
  listRepoWorkflows gh (calls w) (owner config) (repo config)
  = Response 200 (pre ++ wf :: post)%list ->
  (forall x re,
      In x pre -> RegExp_new filename = Some re ->
      RegExp_test re (wf_path x) = false) ->
  wf_path wf = dir ++ s ++ tail ->
  instanceOf filename s = true ->
  Part0.getWorkflowId gh config filename w
  = (Ok (wf_id wf),
     answered (latency gh) (ListRepoWorkflows (owner config) (repo config)) w).
Proof.
  intros Hsafe Hlist Hpre Hpath Hinst.
  pose proof (dotted_parses _ Hsafe) as Hre. fold (RegExp_new filename) in Hre.
  unfold Part0.getWorkflowId.
  erewrite tryCatch_Ok; [reflexivity|].
  erewrite bind_Ok by (apply request_Response; exact Hlist).
  cbv beta iota. cbn [Z.eqb Pos.eqb negb].
  erewrite (findByPath_first filename _ pre wf post Hre).
  - reflexivity.
  - intros x Hx. now apply Hpre.
  - rewrite Hpath. apply RegExp_test_later. now apply dotted_matchHere.
Qed.

(** The listing of the disabled-workflow scenario, asked for [echo-2.yaml];
    and a listing in which [echo-2-yaml.txt] comes first. *)
Lemma getWorkflowId_takes_the_first_match_witness :
  Part0.getWorkflowId Demo.disabled Demo.config "echo-2.yaml" w0
  = (Ok 1854248,
     answered (latency Demo.disabled) (ListRepoWorkflows "owner" "repo") w0)
  /\ (let gh :=
        mkPlatform (listWorkflowRuns Demo.gh) (listJobsForWorkflowRun Demo.gh)
          (fun _ _ _ => Response 200 [mkWorkflow 9 "Notes" "docs/echo-2-yaml.txt";
                                      Demo.echo2])
          (createDispatch Demo.gh) (getWorkflowRun Demo.gh) (latency Demo.gh) in
      Part0.getWorkflowId gh Demo.config "echo-2.yaml" w0
      = (Ok 9, answered (latency gh) (ListRepoWorkflows "owner" "repo") w0)).
Proof.
  split.
  - apply (getWorkflowId_takes_the_first_match Demo.disabled Demo.config
             "echo-2.yaml" w0
             [mkWorkflow 1854247 "Message Echo 1" ".github/workflows/echo-1.yaml"]
             Demo.echo2 [] ".github/workflows/" "echo-2.yaml" "").
    + reflexivity.
    + reflexivity.
    + intros x re [<-|[]] Hre. injection Hre as <-. reflexivity.
    + reflexivity.
    + reflexivity.
  - intros gh.
    apply (getWorkflowId_takes_the_first_match gh Demo.config "echo-2.yaml" w0
             [] (mkWorkflow 9 "Notes" "docs/echo-2-yaml.txt") [Demo.echo2]
             "docs/" "echo-2-yaml" ".txt").
    + reflexivity.
    + reflexivity.
    + intros x re [].
    + reflexivity.
    + reflexivity.
Defined.

(** X19.  [getWorkflowId] fails when no path matches.  When the listing is
    answered with the status 200 and the pattern of the file name matches
    the path of none of its workflows, which is so for every file name when
    the listing is empty, [getWorkflowId] logs the error and throws it, with
    the message that names the file; when the status is another one, it
    logs and throws the error that names the status. *)
Theorem getWorkflowId_fails_without_a_match (gh : Platform) (config : Config)
    (filename : string) (w : World) (status : Z) (workflows : list Workflow) :
  listRepoWorkflows gh (calls w) (owner config) (repo config)
  = Response status workflows ->
  (status = 200 ->
   forall x,
     In x workflows ->
     exists re, RegExp_new filename = Some re /\ RegExp_test re (wf_path x) = false) ->
  let error :=
    if status =? 200
    then mkError ("Unable to find ID for Workflow: " ++ filename)
    else mkError ("Failed to get workflows, expected 200 but received "
                  ++ Str.ofZ status) in
  Part0.getWorkflowId gh config filename w
  = (Throw error,
     noted (workflowIdFailure (message error))
       (answered (latency gh) (ListRepoWorkflows (owner config) (repo config)) w)).
Proof.
  intros Hlist Hnone error. unfold Part0.getWorkflowId.
  erewrite tryCatch_Throw; [reflexivity|].
  erewrite bind_Ok by (apply request_Response; exact Hlist).
  cbv beta iota. subst error.
  destruct (Z.eqb_spec status 200) as [Hs|Hs]; [|reflexivity].
  cbn [negb]. now rewrite (findByPath_none filename workflows (Hnone Hs)).
Qed.

(** The listing of the disabled-workflow scenario, asked for [echo-3.yaml];
    an empty listing asked for a file name that is no pattern; and a listing
    answered with the status 500. *)
Lemma getWorkflowId_fails_without_a_match_witness :
  fst (Part0.getWorkflowId Demo.disabled Demo.config "echo-3.yaml" w0)
  = Throw (mkError "Unable to find ID for Workflow: echo-3.yaml")
  /\ fst (Part0.getWorkflowId Demo.gh Demo.config "(" w0)
     = Throw (mkError "Unable to find ID for Workflow: (")
  /\ (let gh :=
        mkPlatform (listWorkflowRuns Demo.gh) (listJobsForWorkflowRun Demo.gh)
          (fun _ _ _ => Response 500 []) (createDispatch Demo.gh)
          (getWorkflowRun Demo.gh) (latency Demo.gh) in
      fst (Part0.getWorkflowId gh Demo.config "echo-2.yaml" w0)
      = Throw (mkError "Failed to get workflows, expected 200 but received 500")).
Proof.
  split; [|split].
  - rewrite (getWorkflowId_fails_without_a_match Demo.disabled Demo.config
               "echo-3.yaml" w0 200
               [mkWorkflow 1854247 "Message Echo 1" ".github/workflows/echo-1.yaml";
                Demo.echo2]); [reflexivity | reflexivity |].
    intros _ x [<-|[<-|[]]]; eexists; split; reflexivity.
  - rewrite (getWorkflowId_fails_without_a_match Demo.gh Demo.config "(" w0 200 []);
      [reflexivity | reflexivity |].
    intros _ x [].
  - intros gh.
    rewrite (getWorkflowId_fails_without_a_match gh Demo.config "echo-2.yaml" w0
               500 []); [reflexivity | reflexivity |].
    intros H. discriminate H.
Defined.
